(** * A shallow embedding of the vigilant-cpp logger (src/src/logger.h,
    src/unnamed/part_000) and proofs of its specification. *)

From Stdlib Require Import String Ascii List ZArith Lia Bool.
Import ListNotations.

Local Notation "s1 +++ s2" := (String.append s1 s2) (at level 60, right associativity).

(** ** Data model (logger.h) *)

Inductive LogLevel := Debug | Info | Warn | Error.

(** [logLevelToString], logger.h lines 41-55. *)
Definition logLevelToString (l : LogLevel) : string :=
  match l with
  | Debug => "DEBUG"
  | Info => "INFO"
  | Warn => "WARNING"
  | Error => "ERROR"
  end.

Record Attribute := mkAttribute { key : string; value : string }.

(** [std::map<std::string, V>]: a list of entries kept in increasing key
    order; keys are compared byte-wise as unsigned chars
    ([std::char_traits<char>::compare]), which is [String.compare]. *)
Definition strmap (V : Type) := list (string * V).

(** [m[k] = v] on a [std::map]: replace the entry of [k] or insert it in
    key order. *)
Fixpoint map_set {V} (k : string) (v : V) (m : strmap V) : strmap V :=
  match m with
  | [] => [(k, v)]
  | (k', v') :: m' =>
      match String.compare k k' with
      | Eq => (k, v) :: m'
      | Lt => (k, v) :: m
      | Gt => (k', v') :: map_set k v m'
      end
  end.

(** [m.find(k)]. *)
Fixpoint map_find {V} (k : string) (m : strmap V) : option V :=
  match m with
  | [] => None
  | (k', v') :: m' => if String.eqb k k' then Some v' else map_find k m'
  end.

(** [LogMessage]; the time point is nanoseconds since the epoch of
    [std::chrono::system_clock]. *)
Record LogMessage := mkLogMessage {
  timestamp : Z;
  body : string;
  level : LogLevel;
  attributes : strmap string
}.

(** The fields of [Logger] that the logging paths read. *)
Record Logger := mkLogger {
  serviceName_ : string;
  endpoint_ : string;
  token_ : string;
  passthrough_ : bool;
  noop_ : bool;
  maxBatchSize_ : nat;
  batchInterval_ : Z  (* milliseconds *)
}.

(** [Logger::formatEndpoint], part_000 lines 83-95. *)
Definition formatEndpoint (endpoint : string) (insecure : bool) : string :=
  if insecure then "http://" +++ endpoint +++ "/api/message"
  else "https://" +++ endpoint +++ "/api/message".

(** The constructor [Logger::Logger], part_000 lines 19-38 (the worker
    thread it starts is modelled by the batcher below). *)
Definition Logger_new (name endpoint token : string)
    (passthrough insecure noop : bool) (maxBatchSize : nat)
    (batchInterval : Z) : Logger :=
  {| serviceName_ := name;
     endpoint_ := formatEndpoint endpoint insecure;
     token_ := token;
     passthrough_ := passthrough;
     noop_ := noop;
     maxBatchSize_ := maxBatchSize;
     batchInterval_ := batchInterval |}.

(** A direct construction [Logger(name, endpoint, token)] with the default
    arguments of the declaration, logger.h lines 74-81. *)
Definition Logger_direct (name endpoint token : string) : Logger :=
  Logger_new name endpoint token false false false 100 100.

(** [LoggerBuilder], part_000 lines 261-328. *)
Record LoggerBuilder := mkLoggerBuilder {
  b_serviceName_ : string;
  b_endpoint_ : string;
  b_token_ : string;
  b_passthrough_ : bool;
  b_insecure_ : bool;
  b_noop_ : bool;
  b_maxBatchSize_ : nat;
  b_batchInterval_ : Z
}.

Definition LoggerBuilder_new : LoggerBuilder :=
  {| b_serviceName_ := "my_server";
     b_endpoint_ := "ingress.vigilant.run";
     b_token_ := "tk_1234567890";
     b_passthrough_ := true;
     b_insecure_ := false;
     b_noop_ := false;
     b_maxBatchSize_ := 1000;
     b_batchInterval_ := 100 |}.

Definition withName (name : string) (b : LoggerBuilder) : LoggerBuilder :=
  {| b_serviceName_ := name; b_endpoint_ := b_endpoint_ b; b_token_ := b_token_ b;
     b_passthrough_ := b_passthrough_ b; b_insecure_ := b_insecure_ b;
     b_noop_ := b_noop_ b; b_maxBatchSize_ := b_maxBatchSize_ b;
     b_batchInterval_ := b_batchInterval_ b |}.

Definition withToken (token : string) (b : LoggerBuilder) : LoggerBuilder :=
  {| b_serviceName_ := b_serviceName_ b; b_endpoint_ := b_endpoint_ b; b_token_ := token;
     b_passthrough_ := b_passthrough_ b; b_insecure_ := b_insecure_ b;
     b_noop_ := b_noop_ b; b_maxBatchSize_ := b_maxBatchSize_ b;
     b_batchInterval_ := b_batchInterval_ b |}.

Definition withEndpoint (endpoint : string) (b : LoggerBuilder) : LoggerBuilder :=
  {| b_serviceName_ := b_serviceName_ b; b_endpoint_ := endpoint; b_token_ := b_token_ b;
     b_passthrough_ := b_passthrough_ b; b_insecure_ := b_insecure_ b;
     b_noop_ := b_noop_ b; b_maxBatchSize_ := b_maxBatchSize_ b;
     b_batchInterval_ := b_batchInterval_ b |}.

(** [withPassthrough], [withInsecure] and [withNoop] default their
    argument to [true] (logger.h lines 135-137). *)
Definition withPassthrough (passthrough : bool) (b : LoggerBuilder) : LoggerBuilder :=
  {| b_serviceName_ := b_serviceName_ b; b_endpoint_ := b_endpoint_ b; b_token_ := b_token_ b;
     b_passthrough_ := passthrough; b_insecure_ := b_insecure_ b;
     b_noop_ := b_noop_ b; b_maxBatchSize_ := b_maxBatchSize_ b;
     b_batchInterval_ := b_batchInterval_ b |}.

Definition withInsecure (insecure : bool) (b : LoggerBuilder) : LoggerBuilder :=
  {| b_serviceName_ := b_serviceName_ b; b_endpoint_ := b_endpoint_ b; b_token_ := b_token_ b;
     b_passthrough_ := b_passthrough_ b; b_insecure_ := insecure;
     b_noop_ := b_noop_ b; b_maxBatchSize_ := b_maxBatchSize_ b;
     b_batchInterval_ := b_batchInterval_ b |}.

Definition withNoop (noop : bool) (b : LoggerBuilder) : LoggerBuilder :=
  {| b_serviceName_ := b_serviceName_ b; b_endpoint_ := b_endpoint_ b; b_token_ := b_token_ b;
     b_passthrough_ := b_passthrough_ b; b_insecure_ := b_insecure_ b;
     b_noop_ := noop; b_maxBatchSize_ := b_maxBatchSize_ b;
     b_batchInterval_ := b_batchInterval_ b |}.

Definition withMaxBatchSize (maxBatchSize : nat) (b : LoggerBuilder) : LoggerBuilder :=
  {| b_serviceName_ := b_serviceName_ b; b_endpoint_ := b_endpoint_ b; b_token_ := b_token_ b;
     b_passthrough_ := b_passthrough_ b; b_insecure_ := b_insecure_ b;
     b_noop_ := b_noop_ b; b_maxBatchSize_ := maxBatchSize;
     b_batchInterval_ := b_batchInterval_ b |}.

Definition withBatchInterval (batchInterval : Z) (b : LoggerBuilder) : LoggerBuilder :=
  {| b_serviceName_ := b_serviceName_ b; b_endpoint_ := b_endpoint_ b; b_token_ := b_token_ b;
     b_passthrough_ := b_passthrough_ b; b_insecure_ := b_insecure_ b;
     b_noop_ := b_noop_ b; b_maxBatchSize_ := b_maxBatchSize_ b;
     b_batchInterval_ := batchInterval |}.

(** A chain of setter calls [builder.withX(..).withY(..)...], applied
    left to right. *)
Inductive BuilderCall :=
| BWithName (name : string)
| BWithEndpoint (endpoint : string)
| BWithToken (token : string)
| BWithPassthrough (passthrough : bool)
| BWithInsecure (insecure : bool)
| BWithNoop (noop : bool)
| BWithMaxBatchSize (maxBatchSize : nat)
| BWithBatchInterval (batchInterval : Z).

Definition builder_call (c : BuilderCall) (b : LoggerBuilder) : LoggerBuilder :=
  match c with
  | BWithName x => withName x b
  | BWithEndpoint x => withEndpoint x b
  | BWithToken x => withToken x b
  | BWithPassthrough x => withPassthrough x b
  | BWithInsecure x => withInsecure x b
  | BWithNoop x => withNoop x b
  | BWithMaxBatchSize x => withMaxBatchSize x b
  | BWithBatchInterval x => withBatchInterval x b
  end.

Definition builder_calls (cs : list BuilderCall) (b : LoggerBuilder) : LoggerBuilder :=
  fold_left (fun b c => builder_call c b) cs b.

Definition is_endpoint_call (c : BuilderCall) : bool :=
  match c with BWithEndpoint _ => true | _ => false end.
Definition is_insecure_call (c : BuilderCall) : bool :=
  match c with BWithInsecure _ => true | _ => false end.

Definition build (b : LoggerBuilder) : Logger :=
  Logger_new (b_serviceName_ b) (b_endpoint_ b) (b_token_ b) (b_passthrough_ b)
    (b_insecure_ b) (b_noop_ b) (b_maxBatchSize_ b) (b_batchInterval_ b).

(** ** The shared state of one logger instance

    [logQueue_] and [stopWorker_] are the fields of [Logger] shared under
    [queueMutex_]; [batch] is the local vector of [runBatcher]; [sent] lists
    the batches handed to [sendBatch] past its emptiness check (one flush
    attempt each); [workerDone] says that [runBatcher] has returned;
    [cout] lists the lines written to [std::cout]. *)
Record Sys := mkSys {
  logQueue_ : list LogMessage;
  batch : list LogMessage;
  sent : list (list LogMessage);
  stopWorker_ : bool;
  workerDone : bool;
  cout : list string
}.

Definition Sys_init : Sys := mkSys [] [] [] false false [].

Definition set_queue (q : list LogMessage) (s : Sys) : Sys :=
  mkSys q (batch s) (sent s) (stopWorker_ s) (workerDone s) (cout s).
Definition set_batch (b : list LogMessage) (s : Sys) : Sys :=
  mkSys (logQueue_ s) b (sent s) (stopWorker_ s) (workerDone s) (cout s).
Definition set_stop (s : Sys) : Sys :=
  mkSys (logQueue_ s) (batch s) (sent s) true (workerDone s) (cout s).
Definition set_done (s : Sys) : Sys :=
  mkSys (logQueue_ s) (batch s) (sent s) (stopWorker_ s) true (cout s).
Definition write_line (l : string) (s : Sys) : Sys :=
  mkSys (logQueue_ s) (batch s) (sent s) (stopWorker_ s) (workerDone s) (cout s ++ [l]).

(** ** The logging path *)

(** The text [logPassthrough] builds: the [oss << a.key << "=" << a.value
    << " "] loop. *)
Definition passthrough_attrs (attrs : list Attribute) : string :=
  fold_left (fun acc a => acc +++ key a +++ "=" +++ value a +++ " ") attrs EmptyString.

Definition passthrough_line (lvl : LogLevel) (message : string)
    (attrs : list Attribute) : string :=
  "[" +++ logLevelToString lvl +++ "] " +++ message +++ " {"
    +++ passthrough_attrs attrs +++ "}".

(** [Logger::logPassthrough], part_000 lines 129-143. *)
Definition logPassthrough (lg : Logger) (lvl : LogLevel) (message : string)
    (attrs : list Attribute) (s : Sys) : Sys :=
  if negb (passthrough_ lg) then s
  else write_line (passthrough_line lvl message attrs) s.

(** The attribute map of [logMessage] (lines 110-118); [err] is
    [Some (err->what())] for a non-null [err]. *)
Definition message_attributes (serviceName : string) (err : option string)
    (attrs : list Attribute) : strmap string :=
  let m0 := map_set "service.name" serviceName [] in
  let m1 := fold_left (fun m a => map_set (key a) (value a) m) attrs m0 in
  match err with
  | Some what => map_set "error" what m1
  | None => m1
  end.

(** [Logger::logMessage], part_000 lines 97-127; [now] is the value of
    [std::chrono::system_clock::now()]. *)
Definition logMessage (lg : Logger) (now : Z) (lvl : LogLevel)
    (message : string) (err : option string) (attrs : list Attribute)
    (s : Sys) : Sys :=
  if noop_ lg then s
  else
    let lm := {| timestamp := now; body := message; level := lvl;
                 attributes := message_attributes (serviceName_ lg) err attrs |} in
    let s1 := set_queue (logQueue_ s ++ [lm]) s in
    logPassthrough lg lvl message attrs s1.

(** The public entry points (lines 45-63). *)
Inductive Call :=
| CDebug (message : string) (attrs : list Attribute)
| CInfo (message : string) (attrs : list Attribute)
| CWarn (message : string) (attrs : list Attribute)
| CError (message : string) (err : option string) (attrs : list Attribute).

Definition call (lg : Logger) (now : Z) (c : Call) (s : Sys) : Sys :=
  match c with
  | CDebug m a => logMessage lg now Debug m None a s
  | CInfo m a => logMessage lg now Info m None a s
  | CWarn m a => logMessage lg now Warn m None a s
  | CError m e a => logMessage lg now Error m e a s
  end.

(** ** The batcher, [Logger::runBatcher] (part_000 lines 145-187) *)

(** The inner loop (lines 167-171): move the front of the queue to the
    back of the batch while the queue is not empty and the batch holds
    fewer than [maxBatchSize] events. *)
Fixpoint drain (maxBatchSize : nat) (b q : list LogMessage)
    : list LogMessage * list LogMessage :=
  match q with
  | [] => (b, [])
  | e :: q' =>
      if length b <? maxBatchSize then drain maxBatchSize (b ++ [e]) q'
      else (b, q)
  end.

(** [Logger::sendBatch] seen from the batcher (lines 189-194 and 242): an
    empty batch returns at once; otherwise one flush attempt is made with
    the batch (its payload is [sendBatch_request] below) and the batch is
    cleared. *)
Definition sendBatch (s : Sys) : Sys :=
  match batch s with
  | [] => s
  | b => mkSys (logQueue_ s) [] (sent s ++ [b]) (stopWorker_ s) (workerDone s) (cout s)
  end.

(** One pass of the [while (true)] body after [condition_.wait_until]
    returned. [deadline] says whether [nextSendTime] has been reached (the
    test [now >= nextSendTime] of line 180; a wait that returns with a
    false predicate has timed out, so the deadline has passed then too). *)
Definition runBatcher_iter (maxBatchSize : nat) (deadline : bool) (s : Sys) : Sys :=
  if stopWorker_ s && (match logQueue_ s with [] => true | _ => false end) then
    let s1 := match batch s with [] => s | _ => sendBatch s end in
    set_done s1
  else
    let (b, q) := drain maxBatchSize (batch s) (logQueue_ s) in
    let s1 := set_batch b (set_queue q s) in
    let s2 := if maxBatchSize <=? length (batch s1) then sendBatch s1 else s1 in
    if deadline && negb (match batch s2 with [] => true | _ => false end)
    then sendBatch s2 else s2.

(** The predicate of [wait_until] (line 156). *)
Definition wake_pred (s : Sys) : bool :=
  match logQueue_ s with [] => stopWorker_ s | _ => true end.

(** [Logger::shutdown], part_000 lines 65-81: the first call sets the stop
    flag; later calls return. Waiting in [join] is the batcher running to
    its end. *)
Definition shutdown (s : Sys) : Sys :=
  if stopWorker_ s then s else set_stop s.

(** The interleavings of the producers, [shutdown] and the worker. *)
Inductive Action :=
| ALog (now : Z) (c : Call)
| AShutdown
| ABatcher (deadline : bool).

Definition step (lg : Logger) (a : Action) (s : Sys) : Sys :=
  match a with
  | ALog now c => call lg now c s
  | AShutdown => shutdown s
  | ABatcher d =>
      if workerDone s then s
      else if wake_pred s || d then runBatcher_iter (maxBatchSize_ lg) d s
      else s
  end.

Fixpoint run (lg : Logger) (s : Sys) (tr : list Action) : Sys :=
  match tr with
  | [] => s
  | a :: tr' => run lg (step lg a s) tr'
  end.

(** The event a log call builds (the [LogMessage] of [logMessage]). *)
Definition call_event (lg : Logger) (now : Z) (c : Call) : LogMessage :=
  match c with
  | CDebug m a => mkLogMessage now m Debug (message_attributes (serviceName_ lg) None a)
  | CInfo m a => mkLogMessage now m Info (message_attributes (serviceName_ lg) None a)
  | CWarn m a => mkLogMessage now m Warn (message_attributes (serviceName_ lg) None a)
  | CError m e a => mkLogMessage now m Error (message_attributes (serviceName_ lg) e a)
  end.

(** The events the log calls of a trace enqueue, in order. *)
Fixpoint enqueued (lg : Logger) (tr : list Action) : list LogMessage :=
  match tr with
  | [] => []
  | ALog now c :: tr' =>
      (if noop_ lg then [] else [call_event lg now c]) ++ enqueued lg tr'
  | _ :: tr' => enqueued lg tr'
  end.

(** Accessors of a public call. *)
Definition call_level (c : Call) : LogLevel :=
  match c with CDebug _ _ => Debug | CInfo _ _ => Info | CWarn _ _ => Warn | CError _ _ _ => Error end.
Definition call_message (c : Call) : string :=
  match c with CDebug m _ | CInfo m _ | CWarn m _ | CError m _ _ => m end.
Definition call_attrs (c : Call) : list Attribute :=
  match c with CDebug _ a | CInfo _ a | CWarn _ a | CError _ _ a => a end.
Definition call_err (c : Call) : option string :=
  match c with CError _ e _ => e | _ => None end.

(** The value of the last caller attribute with key [k] (the spec's "last
    write wins" among the caller's attributes). *)
Fixpoint last_value (k : string) (attrs : list Attribute) : option string :=
  match attrs with
  | [] => None
  | a :: l =>
      match last_value k l with
      | Some v => Some v
      | None => if String.eqb (key a) k then Some (value a) else None
      end
  end.

(** The attribute mapping the spec describes: reserved [service.name],
    then the caller attributes (last write wins), then [error]. *)
Definition spec_attribute (svc : string) (err : option string)
    (attrs : list Attribute) (k : string) : option string :=
  let caller :=
    match last_value k attrs with
    | Some v => Some v
    | None => if String.eqb k "service.name" then Some svc else None
    end in
  match err with
  | Some what => if String.eqb k "error" then Some what else caller
  | None => caller
  end.

(** ** Timestamps, [Logger::timePointToString] (part_000 lines 245-259) *)

Local Open Scope Z_scope.

(** [struct tm] as filled by [gmtime]. *)
Record tm := mkTm {
  tm_year : Z;  (* years since 1900 *)
  tm_mon : Z;   (* 0 .. 11 *)
  tm_mday : Z;
  tm_hour : Z;
  tm_min : Z;
  tm_sec : Z
}.

(** [std::gmtime] (the C library, outside the repository): the UTC
    calendar fields of a [time_t], with the days-to-civil-date computation
    on the proleptic Gregorian calendar (eras of 400 years starting on
    March 1st; [civil_of_doe] gives, for a day of the era, the year of the
    era, the month and the day); the remainder of the day is taken
    non-negative, as the C library does. *)
Definition civil_of_doe (doe : Z) : Z * Z * Z :=
  let yoe := (doe - doe / 1460 + doe / 36524 - doe / 146096) / 365 in
  let doy := doe - (365 * yoe + yoe / 4 - yoe / 100) in
  let mp := (5 * doy + 2) / 153 in
  let d := doy - (153 * mp + 2) / 5 + 1 in
  let m := if mp <? 10 then mp + 3 else mp - 9 in
  (yoe + (if m <=? 2 then 1 else 0), m, d).

Definition gmtime (t : Z) : tm :=
  let days := t / 86400 in
  let rem := t mod 86400 in
  let z := days + 719468 in
  let era := z / 146097 in
  let '(yoe, m, d) := civil_of_doe (z mod 146097) in
  {| tm_year := yoe + era * 400 - 1900; tm_mon := m - 1; tm_mday := d;
     tm_hour := rem / 3600; tm_min := (rem mod 3600) / 60; tm_sec := rem mod 60 |}.

Definition digit_char (d : Z) : ascii := ascii_of_nat (48 + Z.to_nat d).

Fixpoint digits_aux (fuel : nat) (n : Z) (acc : string) : string :=
  match fuel with
  | O => acc
  | S f =>
      let acc' := String (digit_char (n mod 10)) acc in
      if n <? 10 then acc' else digits_aux f (n / 10) acc'
  end.

(** The decimal digits of a natural number. *)
Definition decimal (n : Z) : string := digits_aux (S (Z.to_nat (Z.log2 n))) n EmptyString.

(** An integer inserted into a stream: a minus sign, then the digits. *)
Definition show_int (n : Z) : string :=
  if n <? 0 then "-" +++ decimal (- n) else decimal n.

Fixpoint str_repeat (n : nat) (c : ascii) : string :=
  match n with O => EmptyString | S k => String c (str_repeat k c) end.

(** [std::setfill(fill) << std::setw(w)] with the default right adjustment:
    the fill characters go before the whole text. *)
Definition pad_left (fill : ascii) (w : nat) (s : string) : string :=
  str_repeat (w - String.length s) fill +++ s.

(** A numeric [strftime] conversion ([%Y] at width 4, [%m %d %H %M %S] at
    width 2), zero-padded. *)
Definition strftime_num (w : nat) (x : Z) : string := pad_left "0" w (show_int x).

Definition ns_per_s : Z := 1000000000.

(** [Logger::timePointToString]; the time point is in nanoseconds.
    [to_time_t] and [duration_cast] truncate toward zero ([Z.quot]) and
    [%] on durations is the C++ remainder ([Z.rem]). *)
Definition timePointToString (tp : Z) : string :=
  let tt := Z.quot tp ns_per_s in
  let gmt := gmtime tt in
  let ms := Z.quot (Z.rem tp ns_per_s) 1000000 in
  let buffer :=
    strftime_num 4 (tm_year gmt + 1900) +++ "-" +++ strftime_num 2 (tm_mon gmt + 1)
    +++ "-" +++ strftime_num 2 (tm_mday gmt) +++ "T" +++ strftime_num 2 (tm_hour gmt)
    +++ ":" +++ strftime_num 2 (tm_min gmt) +++ ":" +++ strftime_num 2 (tm_sec gmt) in
  buffer +++ "." +++ pad_left "0" 3 (show_int ms) +++ "Z".

Definition is_digit (c : ascii) : bool :=
  (48 <=? nat_of_ascii c)%nat && (nat_of_ascii c <=? 57)%nat.

Definition val2 (a b : ascii) : Z :=
  10 * (Z.of_nat (nat_of_ascii a) - 48) + (Z.of_nat (nat_of_ascii b) - 48).

Definition in_range (lo hi x : Z) : bool := (lo <=? x) && (x <=? hi).

(** The ISO-8601 UTC form with milliseconds, [YYYY-MM-DDTHH:MM:SS.mmmZ],
    with month 01-12, day 01-31, hour 00-23, minute 00-59 and second
    00-60. *)
Definition iso8601_millis_z (s : string) : bool :=
  match s with
  | String y1 (String y2 (String y3 (String y4 (String "-" (String m1 (String m2
    (String "-" (String d1 (String d2 (String "T" (String h1 (String h2
    (String ":" (String i1 (String i2 (String ":" (String s1 (String s2
    (String "." (String f1 (String f2 (String f3 (String "Z" EmptyString))))))))))))))))))))))) =>
      forallb is_digit [y1; y2; y3; y4; m1; m2; d1; d2; h1; h2; i1; i2; s1; s2; f1; f2; f3] &&
      in_range 1 12 (val2 m1 m2) && in_range 1 31 (val2 d1 d2) &&
      in_range 0 23 (val2 h1 h2) && in_range 0 59 (val2 i1 i2) &&
      in_range 0 60 (val2 s1 s2)
  | _ => false
  end.

Local Close Scope Z_scope.

(** ** The JSON payload, [Logger::sendBatch] (part_000 lines 189-243) *)

(** An [nlohmann::json] value of the kinds the payload uses; objects are
    [std::map]s, so their members are kept in key order. *)
Inductive json :=
| JNull
| JString (s : string)
| JArray (l : list json)
| JObject (m : strmap json).

(** [j[k] = v]: a null value becomes an object first; on any other kind
    nlohmann throws [type_error] (305), modelled by [None]. *)
Definition json_set (j : json) (k : string) (v : json) : option json :=
  match j with
  | JNull => Some (JObject [(k, v)])
  | JObject m => Some (JObject (map_set k v m))
  | _ => None
  end.

(** [j.push_back(v)]: a null value becomes an array first. *)
Definition json_push_back (j : json) (v : json) : option json :=
  match j with
  | JNull => Some (JArray [v])
  | JArray l => Some (JArray (l ++ [v]))
  | _ => None
  end.

Definition obind {A B} (o : option A) (f : A -> option B) : option B :=
  match o with Some a => f a | None => None end.
Local Notation "x <- o ;; k" := (obind o (fun x => k)) (at level 61, o at next level, right associativity).

Definition quote_char : ascii := "034"%char.
Definition backslash : ascii := "\"%char.
Definition qstr (s : string) : string := String quote_char s.

(** The state of nlohmann's UTF-8 decoder between two bytes: a code point
    is complete ([UAccept]), or the next byte must lie in [lo..hi] and be
    followed by [n] more continuation bytes (80..BF). *)
Inductive u8state := UAccept | UNeed (lo hi : Z) (n : nat).

(** The decoder state after a lead byte (RFC 3629 well-formed sequences);
    [None] for a byte that cannot start a code point. *)
Definition utf8_lead (b : Z) : option u8state :=
  if (0xC2 <=? b)%Z && (b <=? 0xDF)%Z then Some (UNeed 0x80 0xBF 0)
  else if (b =? 0xE0)%Z then Some (UNeed 0xA0 0xBF 1)
  else if (0xE1 <=? b)%Z && (b <=? 0xEC)%Z then Some (UNeed 0x80 0xBF 1)
  else if (b =? 0xED)%Z then Some (UNeed 0x80 0x9F 1)
  else if (0xEE <=? b)%Z && (b <=? 0xEF)%Z then Some (UNeed 0x80 0xBF 1)
  else if (b =? 0xF0)%Z then Some (UNeed 0x90 0xBF 2)
  else if (0xF1 <=? b)%Z && (b <=? 0xF3)%Z then Some (UNeed 0x80 0xBF 2)
  else if (b =? 0xF4)%Z then Some (UNeed 0x80 0x8F 2)
  else None.

Definition byte (c : ascii) : Z := Z.of_nat (nat_of_ascii c).

Definition hex_digit (d : Z) : ascii :=
  if (d <? 10)%Z then ascii_of_nat (48 + Z.to_nat d) else ascii_of_nat (87 + Z.to_nat d).

(** The text [dump_escaped] writes for a one-byte code point. *)
Definition escape_ascii (c : ascii) : string :=
  let b := byte c in
  if (b =? 0x08)%Z then String backslash "b"
  else if (b =? 0x09)%Z then String backslash "t"
  else if (b =? 0x0A)%Z then String backslash "n"
  else if (b =? 0x0C)%Z then String backslash "f"
  else if (b =? 0x0D)%Z then String backslash "r"
  else if (b =? 0x22)%Z then String backslash (String quote_char EmptyString)
  else if (b =? 0x5C)%Z then String backslash (String backslash EmptyString)
  else if (b <=? 0x1F)%Z then
    String backslash ("u00" +++ String (hex_digit (b / 16)) (String (hex_digit (b mod 16)) EmptyString))
  else String c EmptyString.

(** [serializer::dump_escaped] with [ensure_ascii = false] and the strict
    error handler: bytes of multi-byte code points are copied, one-byte
    code points are escaped as above, and an invalid or incomplete UTF-8
    sequence throws [type_error] (316), modelled by [None]. *)
Fixpoint dump_escaped_from (st : u8state) (s : string) : option string :=
  match s with
  | EmptyString => match st with UAccept => Some EmptyString | _ => None end
  | String c s' =>
      let b := byte c in
      match st with
      | UAccept =>
          if (b <? 0x80)%Z then
            r <- dump_escaped_from UAccept s' ;; Some (escape_ascii c +++ r)
          else
            match utf8_lead b with
            | Some st' => r <- dump_escaped_from st' s' ;; Some (String c r)
            | None => None
            end
      | UNeed lo hi n =>
          if (lo <=? b)%Z && (b <=? hi)%Z then
            r <- dump_escaped_from (match n with O => UAccept | S k => UNeed 0x80 0xBF k end) s' ;;
            Some (String c r)
          else None
      end
  end.

Definition dump_escaped (s : string) : option string := dump_escaped_from UAccept s.

(** [j.dump()] with no indentation. *)
Fixpoint dump (j : json) : option string :=
  match j with
  | JNull => Some "null"%string
  | JString s => e <- dump_escaped s ;; Some (qstr (e +++ String quote_char EmptyString))
  | JArray l =>
      let fix elems (l : list json) : option string :=
        match l with
        | [] => Some EmptyString
        | [v] => dump v
        | v :: l' => d <- dump v ;; r <- elems l' ;; Some (d +++ "," +++ r)
        end in
      r <- elems l ;; Some ("[" +++ r +++ "]")
  | JObject m =>
      let fix members (m : strmap json) : option string :=
        match m with
        | [] => Some EmptyString
        | [(k, v)] => e <- dump_escaped k ;; d <- dump v ;;
                      Some (qstr (e +++ qstr (":" +++ d)))
        | (k, v) :: m' => e <- dump_escaped k ;; d <- dump v ;; r <- members m' ;;
                      Some (qstr (e +++ qstr (":" +++ d +++ "," +++ r)))
        end in
      r <- members m ;; Some ("{" +++ r +++ "}")
  end.

(** The JSON value [sendBatch] builds for a batch (lines 196-218). *)
Definition message_json (msg : LogMessage) : option json :=
  j1 <- json_set JNull "timestamp" (JString (timePointToString (timestamp msg))) ;;
  j2 <- json_set j1 "body" (JString (body msg)) ;;
  j3 <- json_set j2 "level" (JString (logLevelToString (level msg))) ;;
  attributesJson <-
    fold_left (fun acc kv => a <- acc ;; json_set a (fst kv) (JString (snd kv)))
      (attributes msg) (Some JNull) ;;
  json_set j3 "attributes" attributesJson.

Definition sendBatch_payload (lg : Logger) (b : list LogMessage) : option json :=
  p1 <- json_set JNull "token" (JString (token_ lg)) ;;
  p2 <- json_set p1 "type" (JString "logs") ;;
  logsArray <-
    fold_left (fun acc msg => a <- acc ;; mj <- message_json msg ;; json_push_back a mj)
      b (Some (JArray [])) ;;
  json_set p2 "logs" logsArray.

(** What one call of [sendBatch] does on the wire: nothing for an empty
    batch; otherwise the payload is dumped (an exception escapes the worker
    thread when that throws) and POSTed to [endpoint_] with a JSON content
    type. A failure of [curl_easy_init] or of the transfer does not change
    what is sent and is not modelled. *)
Inductive SendOutcome :=
| NoRequest
| Thrown
| Post (url : string) (header : string) (payload : string).

Definition sendBatch_request (lg : Logger) (b : list LogMessage) : SendOutcome :=
  match b with
  | [] => NoRequest
  | _ =>
      match (p <- sendBatch_payload lg b ;; dump p) with
      | Some payloadStr => Post (endpoint_ lg) "Content-Type: application/json" payloadStr
      | None => Thrown
      end
  end.

(** ** Reading the payload back

    A reader for JSON text built from [null], strings, arrays and objects
    (the kinds the payload contains), following RFC 8259: whitespace
    between tokens, the escapes of strings ([\uXXXX] outside the surrogate
    range is stored as UTF-8), and members stored into an object as
    nlohmann's parser does ([obj[key] = value], the last duplicate wins). *)

Definition is_ws (c : ascii) : bool :=
  let b := byte c in ((b =? 32) || (b =? 9) || (b =? 10) || (b =? 13))%Z.

Fixpoint skip_ws (s : string) : string :=
  match s with
  | String c s' => if is_ws c then skip_ws s' else s
  | EmptyString => s
  end.

Definition hex_val (c : ascii) : option Z :=
  let b := byte c in
  if (48 <=? b)%Z && (b <=? 57)%Z then Some (b - 48)%Z
  else if (97 <=? b)%Z && (b <=? 102)%Z then Some (b - 87)%Z
  else if (65 <=? b)%Z && (b <=? 70)%Z then Some (b - 55)%Z
  else None.

Definition zbyte (n : Z) : ascii := ascii_of_nat (Z.to_nat n).

(** The UTF-8 bytes of a code point of the basic multilingual plane. *)
Definition utf8_encode (n : Z) : option string :=
  if (n <? 0x80)%Z then Some (String (zbyte n) EmptyString)
  else if (n <? 0x800)%Z then
    Some (String (zbyte (0xC0 + n / 64)) (String (zbyte (0x80 + n mod 64)) EmptyString))
  else if (0xD800 <=? n)%Z && (n <=? 0xDFFF)%Z then None
  else Some (String (zbyte (0xE0 + n / 4096))
              (String (zbyte (0x80 + (n / 64) mod 64))
                (String (zbyte (0x80 + n mod 64)) EmptyString))).

(** The character a one-letter escape stands for. *)
Definition simple_escape (e : ascii) : option ascii :=
  let b := byte e in
  if (b =? 0x22)%Z then Some quote_char
  else if (b =? 0x5C)%Z then Some backslash
  else if (b =? 0x2F)%Z then Some e
  else if (b =? 0x62)%Z then Some (ascii_of_nat 8)
  else if (b =? 0x66)%Z then Some (ascii_of_nat 12)
  else if (b =? 0x6E)%Z then Some (ascii_of_nat 10)
  else if (b =? 0x72)%Z then Some (ascii_of_nat 13)
  else if (b =? 0x74)%Z then Some (ascii_of_nat 9)
  else None.

(** The rest of a string literal after its opening quote: the decoded
    text and what follows the closing quote. *)
Fixpoint parse_string (s : string) : option (string * string) :=
  match s with
  | EmptyString => None
  | String c s' =>
      if Ascii.eqb c quote_char then Some (EmptyString, s')
      else if Ascii.eqb c backslash then
        match s' with
        | String "u" (String h1 (String h2 (String h3 (String h4 r)))) =>
            d1 <- hex_val h1 ;; d2 <- hex_val h2 ;; d3 <- hex_val h3 ;; d4 <- hex_val h4 ;;
            u <- utf8_encode (((d1 * 16 + d2) * 16 + d3) * 16 + d4)%Z ;;
            p <- parse_string r ;; Some (u +++ fst p, snd p)
        | String e r =>
            x <- simple_escape e ;; p <- parse_string r ;; Some (String x (fst p), snd p)
        | EmptyString => None
        end
      else if (byte c <? 0x20)%Z then None
      else p <- parse_string s' ;; Some (String c (fst p), snd p)
  end.

Fixpoint parse_value (fuel : nat) (s : string) {struct fuel} : option (json * string) :=
  match fuel with
  | O => None
  | S f =>
      match skip_ws s with
      | String c r =>
          if Ascii.eqb c "n" then
            match r with
            | String "u" (String "l" (String "l" r')) => Some (JNull, r')
            | _ => None
            end
          else if Ascii.eqb c quote_char then
            p <- parse_string r ;; Some (JString (fst p), snd p)
          else if Ascii.eqb c "[" then
            match skip_ws r with
            | String "]" r' => Some (JArray [], r')
            | _ => parse_elems f r []
            end
          else if Ascii.eqb c "{" then
            match skip_ws r with
            | String "}" r' => Some (JObject [], r')
            | _ => parse_members f r []
            end
          else None
      | EmptyString => None
      end
  end
with parse_elems (fuel : nat) (s : string) (acc : list json) {struct fuel}
    : option (json * string) :=
  match fuel with
  | O => None
  | S f =>
      p <- parse_value f s ;;
      match skip_ws (snd p) with
      | String "," r => parse_elems f r (acc ++ [fst p])
      | String "]" r => Some (JArray (acc ++ [fst p]), r)
      | _ => None
      end
  end
with parse_members (fuel : nat) (s : string) (acc : strmap json) {struct fuel}
    : option (json * string) :=
  match fuel with
  | O => None
  | S f =>
      match skip_ws s with
      | String c r =>
          if Ascii.eqb c quote_char then
            pk <- parse_string r ;;
            match skip_ws (snd pk) with
            | String ":" r2 =>
                pv <- parse_value f r2 ;;
                match skip_ws (snd pv) with
                | String "," r3 => parse_members f r3 (map_set (fst pk) (fst pv) acc)
                | String "}" r3 => Some (JObject (map_set (fst pk) (fst pv) acc), r3)
                | _ => None
                end
            | _ => None
            end
          else None
      | EmptyString => None
      end
  end.

(** A whole document: one value, then only whitespace. *)
Definition parse (s : string) : option json :=
  match parse_value (S (String.length s)) s with
  | Some (v, rest) => match skip_ws rest with EmptyString => Some v | _ => None end
  | None => None
  end.

(** ** Well-formedness of what is serialized *)

Local Open Scope Z_scope.

(** The well-formed UTF-8 byte sequences (The Unicode Standard, table
    3-7): for a first byte, the ranges of the bytes that must follow it;
    [None] for a byte that cannot start a sequence. *)
Definition utf8_seq (b : Z) : option (list (Z * Z)) :=
  let c := (0x80, 0xBF) in
  if b <? 0x80 then Some []
  else if in_range 0xC2 0xDF b then Some [c]
  else if b =? 0xE0 then Some [(0xA0, 0xBF); c]
  else if in_range 0xE1 0xEC b then Some [c; c]
  else if b =? 0xED then Some [(0x80, 0x9F); c]
  else if in_range 0xEE 0xEF b then Some [c; c]
  else if b =? 0xF0 then Some [(0x90, 0xBF); c; c]
  else if in_range 0xF1 0xF3 b then Some [c; c; c]
  else if b =? 0xF4 then Some [(0x80, 0x8F); c; c]
  else None.

(** [s] continues the ranges [need] and then is a sequence of well-formed
    UTF-8 characters. *)
Fixpoint utf8_valid_from (need : list (Z * Z)) (s : string) : bool :=
  match s, need with
  | EmptyString, [] => true
  | EmptyString, _ :: _ => false
  | String c r, (lo, hi) :: need' => in_range lo hi (byte c) && utf8_valid_from need' r
  | String c r, [] =>
      match utf8_seq (byte c) with
      | Some need' => utf8_valid_from need' r
      | None => false
      end
  end.

Definition utf8_valid (s : string) : bool := utf8_valid_from [] s.

(** The ranges the bytes after a decoder state must lie in. *)
Definition need_of (st : u8state) : list (Z * Z) :=
  match st with
  | UAccept => []
  | UNeed lo hi n => (lo, hi) :: repeat (0x80, 0xBF) n
  end.

Fixpoint ranges_eqb (l1 l2 : list (Z * Z)) : bool :=
  match l1, l2 with
  | [], [] => true
  | (a, b) :: t1, (c, d) :: t2 => (a =? c) && (b =? d) && ranges_eqb t1 t2
  | _, _ => false
  end.

(** The decoder's state after a first byte [b] asks for the ranges of
    table 3-7. *)
Definition lead_agrees (b : Z) : bool :=
  match utf8_seq b, utf8_lead b with
  | Some need, Some st => ranges_eqb need (need_of st)
  | None, None => true
  | _, _ => false
  end.

Local Close Scope Z_scope.

(** Keys in strictly increasing order, as in a [std::map]. *)
Fixpoint keys_sorted {V} (m : strmap V) : bool :=
  match m with
  | (k1, _) :: (((k2, _) :: _) as m') =>
      match String.compare k1 k2 with Lt => keys_sorted m' | _ => false end
  | _ => true
  end.

(** A JSON value whose objects all have sorted keys (every value built
    through [json_set] is one). *)
Fixpoint json_wf (j : json) : bool :=
  match j with
  | JNull | JString _ => true
  | JArray l => forallb json_wf l
  | JObject m => keys_sorted m && forallb (fun kv => match kv with (_, v) => json_wf v end) m
  end.

(** The text [dump] writes between the brackets of an array and between
    the braces of an object. *)
Fixpoint dump_elems (l : list json) : option string :=
  match l with
  | [] => Some EmptyString
  | [v] => dump v
  | v :: l' => d <- dump v ;; r <- dump_elems l' ;; Some (d +++ "," +++ r)
  end.

Fixpoint dump_members (m : strmap json) : option string :=
  match m with
  | [] => Some EmptyString
  | [(k, v)] => e <- dump_escaped k ;; d <- dump v ;; Some (qstr (e +++ qstr (":" +++ d)))
  | (k, v) :: m' => e <- dump_escaped k ;; d <- dump v ;; r <- dump_members m' ;;
                    Some (qstr (e +++ qstr (":" +++ d +++ "," +++ r)))
  end.

(** Whether [f] holds on the [n] integers from [lo]. *)
Fixpoint all_in (f : Z -> bool) (lo : Z) (n : nat) : bool :=
  match n with
  | O => true
  | S k => f lo && all_in f (Z.succ lo) k
  end.

(** A day of an era whose month and day are in range and whose year of
    the era is at most 400, and at most 399 before January 1st of the
    era's last year. *)
Definition civil_ok (doe : Z) : bool :=
  let '(yoe, m, d) := civil_of_doe doe in
  in_range 1 12 m && in_range 1 31 d && in_range 0 400 yoe &&
  (if (doe <? 146037)%Z then (yoe <=? 399)%Z else true).

(** The shapes of the zero-padded numbers [timePointToString] writes. *)
Definition num2_ok (x : Z) : bool :=
  match strftime_num 2 x with
  | String a (String b EmptyString) => is_digit a && is_digit b && (val2 a b =? x)%Z
  | _ => false
  end.

Definition num3_ok (x : Z) : bool :=
  match pad_left "0" 3 (show_int x) with
  | String a (String b (String c EmptyString)) => is_digit a && is_digit b && is_digit c
  | _ => false
  end.

Definition num4_ok (x : Z) : bool :=
  match strftime_num 4 x with
  | String a (String b (String c (String d EmptyString))) =>
      is_digit a && is_digit b && is_digit c && is_digit d
  | _ => false
  end.

(** Every character of [s] satisfies [p]. *)
Fixpoint all_chars (p : ascii -> bool) (s : string) : bool :=
  match s with
  | EmptyString => true
  | String c s' => p c && all_chars p s'
  end.

Definition is_ascii7 (c : ascii) : bool := (byte c <? 0x80)%Z.

(** The last instant whose [%Y] has four digits, 9999-12-31T23:59:59.999Z,
    is [max_tp - 1] nanoseconds after the epoch. *)
Definition max_tp : Z := 253402300800000000000.

(** An event [sendBatch] can serialize as the specification describes:
    its strings are UTF-8 and its attribute map is a non-empty [std::map]
    (as [logMessage] builds it). *)
Definition event_ok (msg : LogMessage) : Prop :=
  utf8_valid (body msg) = true /\
  attributes msg <> [] /\ keys_sorted (attributes msg) = true /\
  Forall (fun kv => utf8_valid (fst kv) = true /\ utf8_valid (snd kv) = true) (attributes msg).

Definition attributes_json (m : strmap string) : strmap json :=
  map (fun kv => (fst kv, JString (snd kv))) m.

(** The entry of the [logs] array the specification describes for an
    event. *)
Definition wire_entry (msg : LogMessage) : json :=
  JObject [("attributes"%string, JObject (attributes_json (attributes msg)));
           ("body"%string, JString (body msg));
           ("level"%string, JString (logLevelToString (level msg)));
           ("timestamp"%string, JString (timePointToString (timestamp msg)))].

Definition wire_payload (lg : Logger) (b : list LogMessage) : json :=
  JObject [("logs"%string, JArray (map wire_entry b));
           ("token"%string, JString (token_ lg));
           ("type"%string, JString "logs"%string)].

(** The events [logMessage] builds for a sequence of calls, each with the
    time point [now] it was made at. *)
Definition batch_of (lg : Logger) (cs : list (Z * Call)) : list LogMessage :=
  map (fun nc => call_event lg (fst nc) (snd nc)) cs.

(** Every string a call hands to the logger is valid UTF-8. *)
Definition call_utf8 (c : Call) : bool :=
  utf8_valid (call_message c) &&
  forallb (fun a => utf8_valid (key a) && utf8_valid (value a)) (call_attrs c) &&
  match call_err c with Some what => utf8_valid what | None => true end.

(** ** Sample inputs *)

Definition lg_noop_passthrough : Logger :=
  Logger_new "svc" "example.com" "tk" true false true 100 100.

Definition lg_plain : Logger :=
  Logger_new "svc" "example.com" "tk" true false false 2 1000.

Definition burst_abc : list (Z * Call) :=
  [(0%Z, CInfo "a" []); (1%Z, CInfo "b" []); (2%Z, CInfo "c" [])].

Definition shutdown_pre : list Action := [ALog 0 (CInfo "a" [])].
Definition shutdown_post : list Action := [ABatcher true; ABatcher false].

(** A logger built with [withMaxBatchSize(0)]. *)
Definition lg_zero : Logger :=
  Logger_new "svc" "example.com" "tk" false false false 0 100.

(** "caf\233" in ISO-8859-1: the byte 0xE9 is not valid UTF-8. *)
Definition latin1_text : string := String "c" (String "a" (String "f" (String "233" EmptyString))).

(** Calls made on 2024-05-06 (1714953600 s after the epoch). *)
Definition sample_calls : list (Z * Call) :=
  [(1714953600123456789%Z, CInfo "started" [mkAttribute "user" "bob"]);
   (1714953601000000000%Z, CError "failed" (Some "timeout"%string) [])].

(** ** Reading a time stamp back

    The instant an ISO-8601 text [YYYY-MM-DDTHH:MM:SS.mmmZ] denotes, in
    milliseconds since 1970-01-01T00:00:00.000Z, on the proleptic
    Gregorian calendar: 365 days a year, plus one for each leap year
    (divisible by 4, except centuries not divisible by 400), months of
    31, 28 (29), 31, 30, 31, 30, 31, 31, 30, 31, 30, 31 days. *)

Local Open Scope Z_scope.

Definition is_leap (y : Z) : bool :=
  ((y mod 4 =? 0) && negb (y mod 100 =? 0)) || (y mod 400 =? 0).

(** The number of leap years among the years [1 .. y-1] (counted
    negatively below year 1). *)
Definition leaps_before (y : Z) : Z := (y - 1) / 4 - (y - 1) / 100 + (y - 1) / 400.

Definition days_before_month (y m : Z) : Z :=
  nth (Z.to_nat (m - 1)) [0; 31; 59; 90; 120; 151; 181; 212; 243; 273; 304; 334] 0 +
  (if (2 <? m) && is_leap y then 1 else 0).

(** Days from 1970-01-01 to the date [y-m-d]. *)
Definition days_from_civil (y m d : Z) : Z :=
  365 * (y - 1970) + (leaps_before y - leaps_before 1970) + days_before_month y m + (d - 1).

Definition digit_val (c : ascii) : Z := Z.of_nat (nat_of_ascii c) - 48.

Definition val3 (a b c : ascii) : Z := 100 * digit_val a + 10 * digit_val b + digit_val c.

Definition val4 (a b c d : ascii) : Z :=
  1000 * digit_val a + 100 * digit_val b + 10 * digit_val c + digit_val d.

Definition iso_to_millis (s : string) : option Z :=
  match s with
  | String y1 (String y2 (String y3 (String y4 (String "-" (String m1 (String m2
    (String "-" (String d1 (String d2 (String "T" (String h1 (String h2
    (String ":" (String i1 (String i2 (String ":" (String s1 (String s2
    (String "." (String f1 (String f2 (String f3 (String "Z" EmptyString))))))))))))))))))))))) =>
      if forallb is_digit [y1; y2; y3; y4; m1; m2; d1; d2; h1; h2; i1; i2; s1; s2; f1; f2; f3]
      then Some (days_from_civil (val4 y1 y2 y3 y4) (val2 m1 m2) (val2 d1 d2) * 86400000 +
                 val2 h1 h2 * 3600000 + val2 i1 i2 * 60000 + val2 s1 s2 * 1000 +
                 val3 f1 f2 f3)
      else None
  | _ => None
  end.

(** A day of an era (from March 1st of year 0) gets the date it is. *)
Definition civil_days_ok (doe : Z) : bool :=
  let '(yoe, m, d) := civil_of_doe doe in days_from_civil yoe m d =? doe - 719468.

Definition num3v_ok (x : Z) : bool :=
  match pad_left "0" 3 (show_int x) with
  | String a (String b (String c EmptyString)) =>
      is_digit a && is_digit b && is_digit c && (val3 a b c =? x)
  | _ => false
  end.

Definition num4v_ok (x : Z) : bool :=
  match strftime_num 4 x with
  | String a (String b (String c (String d EmptyString))) =>
      is_digit a && is_digit b && is_digit c && is_digit d && (val4 a b c d =? x)
  | _ => false
  end.

Local Close Scope Z_scope.

(** The strings of a batch [sendBatch] checks as UTF-8 when it dumps the
    payload: the token, and each event's body and attribute keys and
    values. *)
Definition batch_utf8 (lg : Logger) (b : list LogMessage) : bool :=
  utf8_valid (token_ lg) &&
  forallb (fun msg => utf8_valid (body msg) &&
             forallb (fun kv => utf8_valid (fst kv) && utf8_valid (snd kv)) (attributes msg)) b.

(** Fields of the worker the batcher keeps within [maxBatchSize]. *)
Definition batch_bounds (m : nat) (s : Sys) : Prop :=
  length (batch s) <= m /\ Forall (fun b => b <> [] /\ length b <= m) (sent s).

(** ** Basic lemmas *)

Lemma string_compare_refl (s : string) : String.compare s s = Eq.
Proof.
  induction s as [|a s IH]; simpl; [reflexivity|].
  unfold Ascii.compare. rewrite N.compare_refl. exact IH.
Qed.

Lemma map_find_set {V} (k k' : string) (v : V) (m : strmap V) :
  map_find k (map_set k' v m) = if String.eqb k k' then Some v else map_find k m.
Proof.
  induction m as [|[k0 v0] m IH]; simpl.
  - destruct (String.eqb k k'); reflexivity.
  - destruct (String.compare k' k0) eqn:Hc; simpl.
    + apply String.compare_eq_iff in Hc; subst k0.
      destruct (String.eqb k k'); reflexivity.
    + reflexivity.
    + rewrite IH.
      destruct (String.eqb_spec k k'), (String.eqb_spec k k0); subst; try reflexivity.
      rewrite string_compare_refl in Hc. discriminate.
Qed.

Lemma map_find_fold (k : string) (attrs : list Attribute) (m0 : strmap string) :
  map_find k (fold_left (fun m a => map_set (key a) (value a) m) attrs m0) =
  match last_value k attrs with Some v => Some v | None => map_find k m0 end.
Proof.
  revert m0; induction attrs as [|a l IH]; intros m0; simpl; [reflexivity|].
  rewrite IH. destruct (last_value k l); [reflexivity|].
  rewrite map_find_set, String.eqb_sym. destruct (String.eqb (key a) k); reflexivity.
Qed.

Lemma message_attributes_find svc err attrs k :
  map_find k (message_attributes svc err attrs) = spec_attribute svc err attrs k.
Proof.
  unfold message_attributes, spec_attribute.
  destruct err as [what|]; [rewrite map_find_set; destruct (String.eqb k "error")|];
    try reflexivity; rewrite map_find_fold; simpl; reflexivity.
Qed.

Lemma call_logMessage lg now c s :
  call lg now c s =
  logMessage lg now (call_level c) (call_message c) (call_err c) (call_attrs c) s.
Proof. destruct c; reflexivity. Qed.

Lemma call_event_eq lg now c :
  call_event lg now c =
  mkLogMessage now (call_message c) (call_level c)
    (message_attributes (serviceName_ lg) (call_err c) (call_attrs c)).
Proof. destruct c; reflexivity. Qed.

Lemma call_queue lg now c s :
  logQueue_ (call lg now c s) =
  logQueue_ s ++ (if noop_ lg then [] else [call_event lg now c]).
Proof.
  rewrite call_logMessage, call_event_eq. unfold logMessage, logPassthrough.
  destruct (noop_ lg); [rewrite app_nil_r; reflexivity|].
  destruct (passthrough_ lg); reflexivity.
Qed.

Lemma call_cout lg now c s :
  cout (call lg now c s) =
  cout s ++ (if passthrough_ lg && negb (noop_ lg)
             then [passthrough_line (call_level c) (call_message c) (call_attrs c)]
             else []).
Proof.
  rewrite call_logMessage. unfold logMessage, logPassthrough.
  destruct (noop_ lg), (passthrough_ lg); simpl; rewrite ?app_nil_r; reflexivity.
Qed.

Lemma call_other lg now c s :
  batch (call lg now c s) = batch s /\ sent (call lg now c s) = sent s /\
  stopWorker_ (call lg now c s) = stopWorker_ s /\
  workerDone (call lg now c s) = workerDone s.
Proof.
  rewrite call_logMessage. unfold logMessage, logPassthrough.
  destruct (noop_ lg), (passthrough_ lg); repeat split.
Qed.

(** ** Batcher lemmas *)

Lemma drain_spec m b q :
  drain m b q = (b ++ firstn (m - length b) q, skipn (m - length b) q).
Proof.
  revert b; induction q as [|e q IH]; intros b; simpl.
  - rewrite firstn_nil, skipn_nil, app_nil_r; reflexivity.
  - destruct (Nat.ltb_spec (length b) m) as [Hlt|Hge].
    + rewrite IH, length_app, <- app_assoc; simpl.
      replace (m - length b) with (S (m - (length b + 1))) by lia.
      reflexivity.
    + replace (m - length b) with 0 by lia. simpl. rewrite app_nil_r. reflexivity.
Qed.

Definition content (s : Sys) : list LogMessage :=
  concat (sent s) ++ batch s ++ logQueue_ s.

Lemma sendBatch_content s : content (sendBatch s) = content s.
Proof.
  destruct s as [q [|e b] st stp dn o]; unfold sendBatch, content; simpl; [reflexivity|].
  rewrite concat_app. simpl. rewrite app_nil_r, <- app_assoc. reflexivity.
Qed.

Lemma sendBatch_other s :
  logQueue_ (sendBatch s) = logQueue_ s /\ stopWorker_ (sendBatch s) = stopWorker_ s /\
  workerDone (sendBatch s) = workerDone s /\ cout (sendBatch s) = cout s.
Proof. unfold sendBatch. destruct (batch s); repeat split. Qed.

Lemma runBatcher_iter_content m d s :
  content (runBatcher_iter m d s) = content s.
Proof.
  unfold runBatcher_iter.
  destruct (stopWorker_ s && _).
  - destruct (batch s); [reflexivity|]. unfold set_done. apply sendBatch_content.
  - destruct (drain m (batch s) (logQueue_ s)) as [b q] eqn:Hd.
    assert (Hc : content (set_batch b (set_queue q s)) = content s).
    { unfold content; simpl. rewrite drain_spec in Hd. injection Hd as <- <-.
      rewrite <- app_assoc, firstn_skipn. reflexivity. }
    destruct (m <=? _); destruct (d && _); rewrite ?sendBatch_content; exact Hc.
Qed.

Lemma step_content lg a s :
  content (step lg a s) = content s ++ enqueued lg [a].
Proof.
  destruct a as [now c| |d]; simpl.
  - destruct (call_other lg now c s) as (Hb & Hs & _).
    unfold content. rewrite Hb, Hs, call_queue, !app_assoc, app_nil_r. reflexivity.
  - rewrite app_nil_r. unfold shutdown. destruct (stopWorker_ s); reflexivity.
  - rewrite app_nil_r. destruct (workerDone s); [reflexivity|].
    destruct (wake_pred s || d); [apply runBatcher_iter_content|reflexivity].
Qed.

Lemma enqueued_app lg tr1 tr2 :
  enqueued lg (tr1 ++ tr2) = enqueued lg tr1 ++ enqueued lg tr2.
Proof.
  induction tr1 as [|a tr IH]; simpl; [reflexivity|].
  destruct a; rewrite ?IH, ?app_assoc; reflexivity.
Qed.

Lemma run_content lg s tr :
  content (run lg s tr) = content s ++ enqueued lg tr.
Proof.
  revert s; induction tr as [|a tr IH]; intros s; simpl.
  - rewrite app_nil_r; reflexivity.
  - rewrite IH, step_content, <- app_assoc. f_equal.
    destruct a; simpl; rewrite ?app_nil_r; reflexivity.
Qed.

Lemma runBatcher_iter_done m d s :
  workerDone (runBatcher_iter m d s) =
  (stopWorker_ s && match logQueue_ s with [] => true | _ => false end) || workerDone s.
Proof.
  unfold runBatcher_iter.
  destruct (stopWorker_ s && _); [reflexivity|]. simpl.
  destruct (drain m (batch s) (logQueue_ s)) as [b q].
  destruct (m <=? _); destruct (d && _);
    rewrite ?(proj1 (proj2 (proj2 (sendBatch_other _)))); reflexivity.
Qed.

(** The terminal step of the batcher. *)
Lemma step_terminates lg d s :
  workerDone s = false -> workerDone (step lg (ABatcher d) s) = true ->
  stopWorker_ s = true /\ logQueue_ s = [] /\
  step lg (ABatcher d) s =
    mkSys [] [] (sent s ++ match batch s with [] => [] | b => [b] end)
      true true (cout s).
Proof.
  intros Hnd Hd. simpl in *. rewrite Hnd in *.
  destruct (wake_pred s || d); [|congruence].
  rewrite runBatcher_iter_done, Hnd, orb_false_r in Hd.
  unfold runBatcher_iter. rewrite Hd.
  destruct s as [q b st stp dn o]; simpl in *; subst dn.
  destruct stp, q as [|e q]; try discriminate. simpl.
  destruct b; unfold sendBatch, set_done; simpl; rewrite ?app_nil_r; auto.
Qed.

(** Once [runBatcher] has returned, no flush attempt is made any more. *)
Lemma run_done_sent lg s tr :
  workerDone s = true -> sent (run lg s tr) = sent s /\ workerDone (run lg s tr) = true.
Proof.
  revert s; induction tr as [|a tr IH]; intros s Hd; simpl; [auto|].
  assert (H : sent (step lg a s) = sent s /\ workerDone (step lg a s) = true).
  { destruct a as [now c| |d]; simpl.
    - destruct (call_other lg now c s) as (_ & Hs & _ & Hw). rewrite Hs, Hw. auto.
    - unfold shutdown. destruct (stopWorker_ s); auto.
    - rewrite Hd. auto. }
  destruct H as [H1 H2]. destruct (IH _ H2) as [H3 H4]. rewrite H3, H1. auto.
Qed.

(** Without a [shutdown], the stop flag stays clear and the worker runs. *)
Lemma run_no_shutdown lg s tr :
  ~ In AShutdown tr -> stopWorker_ s = false -> workerDone s = false ->
  stopWorker_ (run lg s tr) = false /\ workerDone (run lg s tr) = false.
Proof.
  revert s; induction tr as [|a tr IH]; intros s Hin Hs Hd; simpl; [auto|].
  apply IH; [intros H; apply Hin; right; exact H| |].
  - destruct a as [now c| |d]; simpl.
    + destruct (call_other lg now c s) as (_ & _ & Hst & _). congruence.
    + exfalso; apply Hin; left; reflexivity.
    + rewrite Hd. destruct (wake_pred s || d); [|exact Hs].
      unfold runBatcher_iter. rewrite Hs. simpl.
      destruct (drain _ _ _) as [b q].
      destruct (_ <=? _); destruct (d && _);
        rewrite ?(proj1 (proj2 (sendBatch_other _))); exact Hs.
  - destruct a as [now c| |d]; simpl.
    + destruct (call_other lg now c s) as (_ & _ & _ & Hw). congruence.
    + exfalso; apply Hin; left; reflexivity.
    + rewrite Hd. destruct (wake_pred s || d); [|exact Hd].
      rewrite runBatcher_iter_done, Hs, Hd. reflexivity.
Qed.

Lemma run_app lg s tr1 tr2 : run lg s (tr1 ++ tr2) = run lg (run lg s tr1) tr2.
Proof. revert s; induction tr1; intros s; simpl; auto. Qed.

(** The events enqueued before a point are flushed by the time the worker
    returns after that point. *)
Lemma run_flushes lg E post s X :
  workerDone s = false -> content s = E ++ X ->
  workerDone (run lg s post) = true ->
  exists Y, concat (sent (run lg s post)) = E ++ Y.
Proof.
  revert s X; induction post as [|a post IH]; intros s X Hnd Hc Hd; simpl in *.
  - congruence.
  - destruct (workerDone (step lg a s)) eqn:Hd'.
    + assert (Hterm : exists d, a = ABatcher d).
      { destruct a as [now c| |d]; simpl in Hd'.
        - destruct (call_other lg now c s) as (_ & _ & _ & Hw). congruence.
        - unfold shutdown in Hd'. destruct (stopWorker_ s); simpl in Hd'; congruence.
        - eauto. }
      destruct Hterm as [d ->].
      destruct (step_terminates lg d s Hnd Hd') as (_ & Hq & Hst).
      destruct (run_done_sent lg (step lg (ABatcher d) s) post Hd') as [Hs _].
      rewrite Hs. exists X.
      pose proof (step_content lg (ABatcher d) s) as Hc'.
      rewrite Hst in Hc' |- *. unfold content in Hc, Hc'. simpl in Hc' |- *.
      rewrite !app_nil_r in Hc'. rewrite Hc', Hc. reflexivity.
    + apply (IH _ (X ++ enqueued lg [a])); auto.
      rewrite step_content, Hc, app_assoc. reflexivity.
Qed.

Lemma run_logs lg s (cs : list (Z * Call)) :
  noop_ lg = false ->
  let s' := run lg s (map (fun nc => ALog (fst nc) (snd nc)) cs) in
  logQueue_ s' = logQueue_ s ++ map (fun nc => call_event lg (fst nc) (snd nc)) cs /\
  batch s' = batch s /\ sent s' = sent s /\ stopWorker_ s' = stopWorker_ s /\
  workerDone s' = workerDone s.
Proof.
  intros Hn. revert s; induction cs as [|[now c] cs IH]; intros s; simpl.
  - rewrite app_nil_r. auto.
  - destruct (IH (call lg now c s)) as (H1 & H2 & H3 & H4 & H5).
    destruct (call_other lg now c s) as (G2 & G3 & G4 & G5).
    rewrite H1, call_queue, Hn, <- app_assoc. simpl. repeat split; congruence.
Qed.

Lemma append_nil_r (s : string) : s +++ EmptyString = s.
Proof. induction s as [|a s IH]; simpl; congruence. Qed.

Lemma append_assoc (s1 s2 s3 : string) : (s1 +++ s2) +++ s3 = s1 +++ s2 +++ s3.
Proof. induction s1 as [|a s IH]; simpl; congruence. Qed.

Lemma passthrough_attrs_concat attrs :
  passthrough_attrs attrs =
  String.concat EmptyString (map (fun a => key a +++ "=" +++ value a +++ " ") attrs).
Proof.
  unfold passthrough_attrs.
  assert (H : forall acc,
    fold_left (fun acc a => acc +++ key a +++ "=" +++ value a +++ " ") attrs acc =
    acc +++ String.concat EmptyString (map (fun a => key a +++ "=" +++ value a +++ " ") attrs)).
  { induction attrs as [|a l IH]; intros acc; simpl.
    - rewrite append_nil_r. reflexivity.
    - rewrite IH, append_assoc. f_equal.
      destruct l; simpl; [rewrite append_nil_r; reflexivity|].
      rewrite !append_assoc. reflexivity. }
  rewrite H. reflexivity.
Qed.

(** ** Serialization lemmas *)

Lemma length_append (s1 s2 : string) :
  String.length (s1 +++ s2) = String.length s1 + String.length s2.
Proof. induction s1 as [|a s IH]; simpl; congruence. Qed.

Lemma string_compare_trans a b c :
  String.compare a b = Lt -> String.compare b c = Lt -> String.compare a c = Lt.
Proof.
  revert b c; induction a as [|x a IH]; intros [|y b] [|z c]; simpl; try discriminate; auto.
  unfold Ascii.compare.
  destruct (N.compare_spec (N_of_ascii x) (N_of_ascii y)) as [H1|H1|H1];
  destruct (N.compare_spec (N_of_ascii y) (N_of_ascii z)) as [H2|H2|H2];
  intros Ha Hb; try discriminate;
  destruct (N.compare_spec (N_of_ascii x) (N_of_ascii z)) as [H3|H3|H3]; try lia; eauto.
Qed.

Lemma compare_lt_gt a b : String.compare a b = Lt -> String.compare b a = Gt.
Proof. intros H. rewrite String.compare_antisym, H. reflexivity. Qed.

Lemma keys_sorted_cons_val {V} k (v v' : V) m :
  keys_sorted ((k, v) :: m) = keys_sorted ((k, v') :: m).
Proof. destruct m as [|[]]; reflexivity. Qed.

Lemma keys_sorted_tail {V} (kv : string * V) m :
  keys_sorted (kv :: m) = true -> keys_sorted m = true.
Proof.
  destruct kv as [k v], m as [|[k' v'] m]; simpl; auto.
  destruct (String.compare k k'); congruence.
Qed.

Lemma keys_sorted_head {V} k (v : V) m k' v' :
  keys_sorted ((k, v) :: m) = true -> In (k', v') m -> String.compare k k' = Lt.
Proof.
  revert k v; induction m as [|[k1 v1] m IH]; intros k v Hs Hin; [destruct Hin|].
  simpl in Hs. destruct (String.compare k k1) eqn:Hc; try discriminate.
  destruct Hin as [Heq|Hin]; [injection Heq as <- <-; exact Hc|].
  eapply string_compare_trans; [exact Hc|]. apply (IH k1 v1); [exact Hs|exact Hin].
Qed.

Lemma keys_sorted_app_l {V} (a b : strmap V) :
  keys_sorted (a ++ b) = true -> keys_sorted a = true.
Proof.
  induction a as [|[k v] a IH]; intros Hs; [reflexivity|].
  destruct a as [|[k' v'] a]; [reflexivity|].
  simpl in Hs |- *. destruct (String.compare k k'); try discriminate. apply IH. exact Hs.
Qed.

Lemma map_set_sorted_cons {V} k (v : V) m : forall k0 v0,
  keys_sorted ((k0, v0) :: m) = true -> String.compare k0 k = Lt ->
  keys_sorted ((k0, v0) :: map_set k v m) = true.
Proof.
  induction m as [|[k1 v1] m IH]; intros k0 v0 Hs Hlt.
  - simpl. rewrite Hlt. reflexivity.
  - simpl in Hs. destruct (String.compare k0 k1) eqn:H01; try discriminate.
    simpl. destruct (String.compare k k1) eqn:Hc.
    + apply String.compare_eq_iff in Hc; subst k1.
      change (match String.compare k0 k with Lt => keys_sorted ((k, v) :: m) | _ => false end = true).
      rewrite Hlt, (keys_sorted_cons_val k v v1). exact Hs.
    + change (match String.compare k0 k with
              Lt => keys_sorted ((k, v) :: (k1, v1) :: m) | _ => false end = true).
      rewrite Hlt. simpl. rewrite Hc. exact Hs.
    + change (match String.compare k0 k1 with
              Lt => keys_sorted ((k1, v1) :: map_set k v m) | _ => false end = true).
      rewrite H01. apply IH; [exact Hs|].
      rewrite String.compare_antisym, Hc. reflexivity.
Qed.

(** [map_set] keeps a [std::map] a [std::map]. *)
Lemma map_set_sorted {V} k (v : V) m :
  keys_sorted m = true -> keys_sorted (map_set k v m) = true.
Proof.
  destruct m as [|[k1 v1] m]; intros Hs; simpl; [reflexivity|].
  destruct (String.compare k k1) eqn:Hc.
  - apply String.compare_eq_iff in Hc; subst k1. rewrite (keys_sorted_cons_val k v v1). exact Hs.
  - change (match String.compare k k1 with
            Lt => keys_sorted ((k1, v1) :: m) | _ => false end = true).
    rewrite Hc. exact Hs.
  - apply map_set_sorted_cons; [exact Hs|].
    rewrite String.compare_antisym, Hc. reflexivity.
Qed.

Lemma map_set_snoc {V} k (v : V) acc :
  keys_sorted (acc ++ [(k, v)]) = true -> map_set k v acc = acc ++ [(k, v)].
Proof.
  induction acc as [|[k0 v0] acc IH]; intros Hs; simpl; [reflexivity|].
  assert (Hlt : String.compare k0 k = Lt).
  { eapply keys_sorted_head; [exact Hs|]. apply in_or_app; right; left; reflexivity. }
  rewrite (compare_lt_gt _ _ Hlt). f_equal. apply IH.
  eapply keys_sorted_tail; exact Hs.
Qed.

(** Storing the members of a sorted map one after the other, as the
    reader does, gives the map back. *)
Lemma fold_map_set_sorted {V} (m acc : strmap V) :
  keys_sorted (acc ++ m) = true ->
  fold_left (fun a kv => map_set (fst kv) (snd kv) a) m acc = acc ++ m.
Proof.
  revert acc; induction m as [|[k v] m IH]; intros acc Hs; simpl; [symmetry; apply app_nil_r|].
  rewrite map_set_snoc.
  - rewrite IH; rewrite <- app_assoc; [reflexivity|exact Hs].
  - eapply keys_sorted_app_l. rewrite <- app_assoc. exact Hs.
Qed.

Lemma keys_sorted_attributes_json m :
  keys_sorted (attributes_json m) = keys_sorted m.
Proof.
  induction m as [|[k v] m IH]; [reflexivity|].
  destruct m as [|[k2 v2] m]; [reflexivity|].
  change (match String.compare k k2 with Lt => keys_sorted (attributes_json ((k2, v2) :: m))
          | _ => false end =
          match String.compare k k2 with Lt => keys_sorted ((k2, v2) :: m) | _ => false end).
  rewrite IH. reflexivity.
Qed.

Lemma map_find_attributes_json k m :
  map_find k (attributes_json m) = option_map JString (map_find k m).
Proof.
  induction m as [|[k' v'] m IH]; simpl; [reflexivity|].
  destruct (String.eqb k k'); [reflexivity|exact IH].
Qed.

(** *** Strings: what [dump_escaped] writes, the reader reads back *)

Lemma byte_high_neq c : (0x80 <= byte c)%Z -> c <> quote_char /\ c <> backslash.
Proof. intros H; split; intros ->; unfold byte in H; simpl in H; lia. Qed.

Lemma parse_string_raw c X :
  (0x80 <= byte c)%Z ->
  parse_string (String c X) = p <- parse_string X ;; Some (String c (fst p), snd p).
Proof.
  intros H. destruct (byte_high_neq c H) as [Hq Hb].
  apply Ascii.eqb_neq in Hq, Hb. cbn [parse_string]. rewrite Hq, Hb.
  replace (byte c <? 32)%Z with false by (symmetry; apply Z.ltb_ge; lia). reflexivity.
Qed.

Lemma escape_ascii_parse c X :
  (byte c <? 0x80)%Z = true ->
  parse_string (escape_ascii c +++ X) = p <- parse_string X ;; Some (String c (fst p), snd p).
Proof.
  destruct c as [[|] [|] [|] [|] [|] [|] [|] [|]]; intros H;
    first [reflexivity | vm_compute in H; discriminate H].
Qed.

Lemma utf8_lead_ok b st :
  utf8_lead b = Some st -> match st with UAccept => True | UNeed lo _ _ => (0x80 <= lo)%Z end.
Proof.
  unfold utf8_lead.
  repeat match goal with |- context [if ?c then _ else _] => destruct c end;
    intros H; try discriminate; injection H as <-; lia.
Qed.

Lemma dump_escaped_parse s : forall st e rest,
  match st with UAccept => True | UNeed lo _ _ => (0x80 <= lo)%Z end ->
  dump_escaped_from st s = Some e ->
  parse_string (e +++ String quote_char rest) = Some (s, rest).
Proof.
  induction s as [|c s IH]; intros st e rest Hst Hd.
  - destruct st; simpl in Hd; [|discriminate]. injection Hd as <-. reflexivity.
  - destruct st as [|lo hi n]; cbn [dump_escaped_from] in Hd.
    + destruct (byte c <? 0x80)%Z eqn:Hb.
      * destruct (dump_escaped_from UAccept s) as [r|] eqn:Hr; simpl in Hd; [|discriminate].
        injection Hd as <-. rewrite append_assoc, (escape_ascii_parse c _ Hb).
        rewrite (IH UAccept r rest I Hr). reflexivity.
      * apply Z.ltb_ge in Hb.
        destruct (utf8_lead (byte c)) as [st'|] eqn:Hl; [|discriminate].
        destruct (dump_escaped_from st' s) as [r|] eqn:Hr; simpl in Hd; [|discriminate].
        injection Hd as <-. cbn [String.append]. rewrite (parse_string_raw c _ Hb).
        rewrite (IH st' r rest (utf8_lead_ok _ _ Hl) Hr). reflexivity.
    + destruct ((lo <=? byte c) && (byte c <=? hi))%Z eqn:H0; [|discriminate].
      apply andb_prop in H0 as [H1 _]. apply Z.leb_le in H1. simpl in Hst.
      destruct (dump_escaped_from (match n with O => UAccept | S k => UNeed 0x80 0xBF k end) s)
        as [r|] eqn:Hr; simpl in Hd; [|discriminate].
      injection Hd as <-. cbn [String.append]. rewrite (parse_string_raw c) by lia.
      assert (Hn : match (match n with O => UAccept | S k => UNeed 0x80 0xBF k end) with
                     | UAccept => True | UNeed lo _ _ => (0x80 <= lo)%Z end)
        by (destruct n; simpl; lia).
      rewrite (IH _ r rest Hn Hr). reflexivity.
Qed.

(** *** Values: what [dump] writes, the reader reads back *)

Lemma dump_array l : dump (JArray l) = r <- dump_elems l ;; Some ("[" +++ r +++ "]").
Proof. reflexivity. Qed.

Lemma dump_object m : dump (JObject m) = r <- dump_members m ;; Some ("{" +++ r +++ "}").
Proof. reflexivity. Qed.

Lemma dump_elems_cons2 v v2 l :
  dump_elems (v :: v2 :: l) = d <- dump v ;; r <- dump_elems (v2 :: l) ;; Some (d +++ "," +++ r).
Proof. reflexivity. Qed.

Lemma dump_members_cons2 k v kv2 m :
  dump_members ((k, v) :: kv2 :: m) =
  e <- dump_escaped k ;; d <- dump v ;; r <- dump_members (kv2 :: m) ;;
  Some (qstr (e +++ qstr (":" +++ d +++ "," +++ r))).
Proof. reflexivity. Qed.

Lemma dump_head j e : dump j = Some e ->
  exists c e', e = String c e' /\ (c = "n" \/ c = quote_char \/ c = "[" \/ c = "{")%char.
Proof.
  destruct j as [|s|l|m]; intros H.
  - injection H as <-. do 2 eexists; split; [reflexivity|auto].
  - simpl in H. destruct (dump_escaped s); simpl in H; [|discriminate].
    injection H as <-. do 2 eexists; split; [reflexivity|auto].
  - rewrite dump_array in H. destruct (dump_elems l); simpl in H; [|discriminate].
    injection H as <-. do 2 eexists; split; [reflexivity|auto].
  - rewrite dump_object in H. destruct (dump_members m); simpl in H; [|discriminate].
    injection H as <-. do 2 eexists; split; [reflexivity|auto].
Qed.

Lemma dump_elems_head v l r : dump_elems (v :: l) = Some r ->
  exists c e', r = String c e' /\ (c = "n" \/ c = quote_char \/ c = "[" \/ c = "{")%char.
Proof.
  destruct l as [|v2 l]; intros H; [exact (dump_head v r H)|].
  rewrite dump_elems_cons2 in H.
  destruct (dump v) as [d|] eqn:Hd; cbn [obind] in H; [|discriminate].
  destruct (dump_elems (v2 :: l)); cbn [obind] in H; [|discriminate].
  injection H as <-. destruct (dump_head v d Hd) as (c & e' & -> & Hc).
  do 2 eexists; split; [reflexivity|exact Hc].
Qed.

Lemma dump_members_head kv m r : dump_members (kv :: m) = Some r ->
  exists e', r = String quote_char e'.
Proof.
  destruct kv as [k v], m as [|kv2 m]; intros H.
  - simpl in H. destruct (dump_escaped k); simpl in H; [|discriminate].
    destruct (dump v); simpl in H; [|discriminate]. injection H as <-. eexists; reflexivity.
  - rewrite dump_members_cons2 in H. destruct (dump_escaped k); cbn [obind] in H; [|discriminate].
    destruct (dump v); cbn [obind] in H; [|discriminate].
    destruct (dump_members (kv2 :: m)); cbn [obind] in H; [|discriminate].
    injection H as <-. eexists; reflexivity.
Qed.

Lemma parse_value_null F X : parse_value (S F) ("null" +++ X) = Some (JNull, X).
Proof. reflexivity. Qed.

Lemma parse_value_quote F X :
  parse_value (S F) (String quote_char X) = p <- parse_string X ;; Some (JString (fst p), snd p).
Proof. reflexivity. Qed.

Lemma parse_value_empty_array F X : parse_value (S F) ("[]" +++ X) = Some (JArray [], X).
Proof. reflexivity. Qed.

Lemma parse_value_empty_object F X : parse_value (S F) ("{}" +++ X) = Some (JObject [], X).
Proof. reflexivity. Qed.

Lemma parse_value_array F c X :
  (c = "n" \/ c = quote_char \/ c = "[" \/ c = "{")%char ->
  parse_value (S F) (String "[" (String c X)) = parse_elems F (String c X) [].
Proof. intros [ -> | [ -> | [ -> | -> ] ] ]; reflexivity. Qed.

Lemma parse_value_object F X :
  parse_value (S F) (String "{" (String quote_char X)) = parse_members F (String quote_char X) [].
Proof. reflexivity. Qed.

Lemma parse_elems_comma G X v acc Y :
  parse_value G X = Some (v, String "," Y) ->
  parse_elems (S G) X acc = parse_elems G Y (acc ++ [v]).
Proof. intros H. simpl. rewrite H. reflexivity. Qed.

Lemma parse_elems_close G X v acc Y :
  parse_value G X = Some (v, String "]" Y) ->
  parse_elems (S G) X acc = Some (JArray (acc ++ [v]), Y).
Proof. intros H. simpl. rewrite H. reflexivity. Qed.

Lemma parse_members_comma G K X k v acc Y :
  parse_string K = Some (k, String ":" X) -> parse_value G X = Some (v, String "," Y) ->
  parse_members (S G) (String quote_char K) acc = parse_members G Y (map_set k v acc).
Proof. intros H1 H2. simpl. rewrite H1. simpl. rewrite H2. reflexivity. Qed.

Lemma parse_members_close G K X k v acc Y :
  parse_string K = Some (k, String ":" X) -> parse_value G X = Some (v, String "}" Y) ->
  parse_members (S G) (String quote_char K) acc = Some (JObject (map_set k v acc), Y).
Proof. intros H1 H2. simpl. rewrite H1. simpl. rewrite H2. reflexivity. Qed.

Section ReadBack.

Variable F : nat.

Hypothesis IH : forall G, G < F -> forall j e rest,
  json_wf j = true -> dump j = Some e -> String.length e < G ->
  parse_value G (e +++ rest) = Some (j, rest).

Lemma parse_dump_elems : forall l G r acc rest,
  l <> [] -> forallb json_wf l = true -> dump_elems l = Some r ->
  S (String.length r) < G -> G <= F ->
  parse_elems G (r +++ String "]" rest) acc = Some (JArray (acc ++ l), rest).
Proof.
  induction l as [|v l IHl]; intros G r acc rest Hne Hwf Hr Hlen HG; [congruence|].
  destruct G as [|G]; [lia|].
  simpl in Hwf. apply andb_prop in Hwf as [Hv Hl].
  destruct l as [|v2 l].
  - cbn [dump_elems] in Hr.
    apply (parse_elems_close G _ v acc rest).
    apply (IH G ltac:(lia) v r (String "]" rest) Hv Hr ltac:(lia)).
  - rewrite dump_elems_cons2 in Hr.
    destruct (dump v) as [d|] eqn:Hd; cbn [obind] in Hr; [|discriminate].
    destruct (dump_elems (v2 :: l)) as [r'|] eqn:Hr'; cbn [obind] in Hr; [|discriminate].
    injection Hr as <-.
    rewrite !length_append in Hlen. simpl in Hlen.
    rewrite !append_assoc. cbn [String.append].
    rewrite (parse_elems_comma G _ v acc (r' +++ String "]" rest)).
    + rewrite (IHl G r' (acc ++ [v]) rest ltac:(discriminate) Hl eq_refl ltac:(lia) ltac:(lia)).
      rewrite <- app_assoc. reflexivity.
    + apply (IH G ltac:(lia) v d _ Hv Hd ltac:(lia)).
Qed.

Lemma parse_dump_members : forall m G r acc rest,
  m <> [] -> forallb (fun kv => match kv with (_, v) => json_wf v end) m = true ->
  dump_members m = Some r -> S (String.length r) < G -> G <= F ->
  parse_members G (r +++ String "}" rest) acc =
  Some (JObject (fold_left (fun a kv => map_set (fst kv) (snd kv) a) m acc), rest).
Proof.
  induction m as [|[k v] m IHm]; intros G r acc rest Hne Hwf Hr Hlen HG; [congruence|].
  destruct G as [|G]; [lia|].
  simpl in Hwf. apply andb_prop in Hwf as [Hv Hm].
  destruct m as [|kv2 m].
  - cbn [dump_members] in Hr.
    destruct (dump_escaped k) as [ek|] eqn:Hk; cbn [obind] in Hr; [|discriminate].
    destruct (dump v) as [d|] eqn:Hd; cbn [obind] in Hr; [|discriminate].
    injection Hr as <-. unfold qstr in *.
    simpl in Hlen. rewrite !length_append in Hlen. simpl in Hlen.
    cbn [String.append]. rewrite append_assoc. cbn [String.append].
    apply (parse_members_close G _ (d +++ String "}" rest) k v acc rest).
    + apply (dump_escaped_parse k UAccept ek _ I Hk).
    + apply (IH G ltac:(lia) v d _ Hv Hd ltac:(lia)).
  - rewrite dump_members_cons2 in Hr.
    destruct (dump_escaped k) as [ek|] eqn:Hk; cbn [obind] in Hr; [|discriminate].
    destruct (dump v) as [d|] eqn:Hd; cbn [obind] in Hr; [|discriminate].
    destruct (dump_members (kv2 :: m)) as [r'|] eqn:Hr'; cbn [obind] in Hr; [|discriminate].
    injection Hr as <-. unfold qstr in *.
    simpl in Hlen. rewrite !length_append in Hlen. simpl in Hlen.
    rewrite !length_append in Hlen. simpl in Hlen.
    cbn [String.append]. rewrite !append_assoc. cbn [String.append].
    rewrite !append_assoc. cbn [String.append].
    rewrite (parse_members_comma G _ (d +++ String "," (r' +++ String "}" rest)) k v acc
               (r' +++ String "}" rest)).
    + apply (IHm G r' (map_set k v acc) rest ltac:(discriminate) Hm eq_refl ltac:(lia) ltac:(lia)).
    + apply (dump_escaped_parse k UAccept ek _ I Hk).
    + apply (IH G ltac:(lia) v d _ Hv Hd ltac:(lia)).
Qed.

End ReadBack.

Lemma parse_dump_value (F : nat) : forall j e rest,
  json_wf j = true -> dump j = Some e -> String.length e < F ->
  parse_value F (e +++ rest) = Some (j, rest).
Proof.
  induction F as [F IH] using lt_wf_ind.
  intros j e rest Hwf Hd Hlen.
  destruct F as [|F]; [lia|].
  destruct j as [|s|l|m].
  - injection Hd as <-. apply parse_value_null.
  - cbn [dump] in Hd. destruct (dump_escaped s) as [e'|] eqn:He; cbn [obind] in Hd; [|discriminate].
    injection Hd as <-. unfold qstr. cbn [String.append]. rewrite parse_value_quote, append_assoc.
    cbn [String.append]. rewrite (dump_escaped_parse s UAccept e' rest I He). reflexivity.
  - rewrite dump_array in Hd.
    destruct (dump_elems l) as [r|] eqn:Hr; cbn [obind] in Hd; [|discriminate].
    injection Hd as <-.
    destruct l as [|v l'].
    + injection Hr as <-. apply parse_value_empty_array.
    + destruct (dump_elems_head v l' r Hr) as (c & e' & Hre & Hc).
      simpl in Hlen. rewrite !length_append in Hlen. simpl in Hlen.
      cbn [String.append]. rewrite append_assoc. rewrite Hre. cbn [String.append].
      rewrite (parse_value_array F c _ Hc). subst r.
      exact (parse_dump_elems F (fun G HG => IH G ltac:(lia)) (v :: l') F (String c e') [] rest
               ltac:(discriminate) Hwf Hr ltac:(simpl in *; lia) (le_n F)).
  - rewrite dump_object in Hd.
    destruct (dump_members m) as [r|] eqn:Hr; cbn [obind] in Hd; [|discriminate].
    injection Hd as <-.
    simpl in Hwf. apply andb_prop in Hwf as [Hs Hm].
    destruct m as [|kv m'].
    + injection Hr as <-. apply parse_value_empty_object.
    + destruct (dump_members_head kv m' r Hr) as (e' & Hre).
      simpl in Hlen. rewrite !length_append in Hlen. simpl in Hlen.
      cbn [String.append]. rewrite append_assoc. rewrite Hre. cbn [String.append].
      rewrite parse_value_object. subst r.
      change (String quote_char (e' +++ String "}" rest)) with (String quote_char e' +++ String "}" rest).
      rewrite (parse_dump_members F (fun G HG => IH G ltac:(lia)) (kv :: m') F _ [] rest
               ltac:(discriminate) Hm Hr ltac:(simpl in *; lia) (le_n F)).
      rewrite (fold_map_set_sorted (kv :: m') []); [reflexivity|exact Hs].
Qed.

(** The reader gives back every well-formed value [dump] writes. *)
Lemma parse_dump j e : json_wf j = true -> dump j = Some e -> parse e = Some j.
Proof.
  intros Hwf Hd. unfold parse.
  pose proof (parse_dump_value (S (String.length e)) j e EmptyString Hwf Hd (Nat.lt_succ_diag_r _)) as H.
  rewrite append_nil_r in H. rewrite H. reflexivity.
Qed.

(** *** Valid UTF-8 is accepted by the serializer *)

Lemma all_in_spec f lo n :
  all_in f lo n = true -> forall x, (lo <= x < lo + Z.of_nat n)%Z -> f x = true.
Proof.
  revert lo; induction n as [|n IH]; intros lo H x Hx; simpl in *; [lia|].
  apply andb_prop in H as [H1 H2].
  destruct (Z.eq_dec x lo) as [->|Hne]; [exact H1|].
  apply (IH (Z.succ lo) H2). lia.
Qed.

Lemma lead_agrees_high : all_in lead_agrees 0x80 128 = true.
Proof. vm_compute. reflexivity. Qed.

Lemma ranges_eqb_eq l1 l2 : ranges_eqb l1 l2 = true -> l1 = l2.
Proof.
  revert l2; induction l1 as [|[a b] t1 IH]; intros [|[c d] t2] H; simpl in H; try discriminate.
  - reflexivity.
  - apply andb_prop in H as [H H3]. apply andb_prop in H as [H1 H2].
    apply Z.eqb_eq in H1, H2. subst. f_equal. apply IH, H3.
Qed.

Lemma byte_bound c : (0 <= byte c < 256)%Z.
Proof. unfold byte. pose proof (nat_ascii_bounded c). lia. Qed.

Lemma utf8_valid_from_dump s : forall st,
  utf8_valid_from (need_of st) s = true -> exists e, dump_escaped_from st s = Some e.
Proof.
  induction s as [|c r IH]; intros st H.
  - destruct st; simpl in H; [eexists; reflexivity|discriminate].
  - destruct st as [|lo hi n].
    + cbn [need_of utf8_valid_from] in H. cbn [dump_escaped_from].
      destruct (byte c <? 0x80)%Z eqn:Hb.
      * unfold utf8_seq in H. rewrite Hb in H.
        destruct (IH UAccept H) as [e He]. rewrite He. eexists; reflexivity.
      * assert (Ha : lead_agrees (byte c) = true).
        { apply (all_in_spec _ _ _ lead_agrees_high). apply Z.ltb_ge in Hb.
          pose proof (byte_bound c). lia. }
        unfold lead_agrees in Ha.
        destruct (utf8_seq (byte c)) as [need|], (utf8_lead (byte c)) as [st'|];
          try discriminate.
        apply ranges_eqb_eq in Ha. subst need.
        destruct (IH st' H) as [e He]. rewrite He. eexists; reflexivity.
    + cbn [need_of utf8_valid_from] in H. apply andb_prop in H as [H1 H2].
      cbn [dump_escaped_from]. unfold in_range in H1. rewrite H1.
      destruct (IH (match n with O => UAccept | S k => UNeed 0x80 0xBF k end))
        as [e He]; [destruct n; exact H2|].
      rewrite He. eexists; reflexivity.
Qed.

Lemma dump_escaped_some s : utf8_valid s = true -> exists e, dump_escaped s = Some e.
Proof. apply (utf8_valid_from_dump s UAccept). Qed.

(** *** The time stamp is plain ASCII *)

Lemma all_chars_append p s1 s2 :
  all_chars p (s1 +++ s2) = all_chars p s1 && all_chars p s2.
Proof.
  induction s1 as [|c s IH]; simpl; [reflexivity|]. rewrite IH, andb_assoc. reflexivity.
Qed.

Lemma ascii7_utf8_valid s : all_chars is_ascii7 s = true -> utf8_valid s = true.
Proof.
  unfold utf8_valid. induction s as [|c s IH]; intros H; [reflexivity|].
  cbn [all_chars] in H. apply andb_prop in H as [H1 H2]. unfold is_ascii7 in H1.
  cbn [utf8_valid_from]. unfold utf8_seq. rewrite H1. apply IH, H2.
Qed.

Lemma digit_char_ascii7 d : (0 <= d < 10)%Z -> is_ascii7 (digit_char d) = true.
Proof.
  intros H. unfold is_ascii7, byte, digit_char.
  rewrite nat_ascii_embedding by lia. apply Z.ltb_lt. lia.
Qed.

Lemma digits_aux_ascii7 fuel n acc :
  all_chars is_ascii7 acc = true -> all_chars is_ascii7 (digits_aux fuel n acc) = true.
Proof.
  revert n acc; induction fuel as [|f IH]; intros n acc H; [exact H|].
  cbn [digits_aux].
  assert (Hc : all_chars is_ascii7 (String (digit_char (n mod 10)) acc) = true).
  { cbn [all_chars]. rewrite digit_char_ascii7, H; [reflexivity|].
    apply Z.mod_pos_bound. lia. }
  destruct (n <? 10)%Z; [exact Hc|apply IH, Hc].
Qed.

Lemma show_int_ascii7 n : all_chars is_ascii7 (show_int n) = true.
Proof.
  unfold show_int, decimal. destruct (n <? 0)%Z.
  - rewrite all_chars_append. apply andb_true_intro; split; [reflexivity|].
    apply digits_aux_ascii7. reflexivity.
  - apply digits_aux_ascii7. reflexivity.
Qed.

Lemma pad_left_ascii7 w s :
  all_chars is_ascii7 s = true -> all_chars is_ascii7 (pad_left "0" w s) = true.
Proof.
  intros H. unfold pad_left. rewrite all_chars_append, H, andb_true_r.
  induction (w - String.length s) as [|k IH]; [reflexivity|]. exact IH.
Qed.

Lemma timePointToString_ascii7 tp : all_chars is_ascii7 (timePointToString tp) = true.
Proof.
  unfold timePointToString, strftime_num. cbv zeta.
  rewrite !all_chars_append, !pad_left_ascii7 by apply show_int_ascii7.
  reflexivity.
Qed.

(** *** The JSON value [sendBatch] builds *)

Lemma fold_json_set m acc :
  fold_left (fun acc kv => a <- acc ;; json_set a (fst kv) (JString (snd kv))) m
    (Some (JObject acc)) =
  Some (JObject (fold_left (fun a kv => map_set (fst kv) (snd kv) a) (attributes_json m) acc)).
Proof.
  revert acc; induction m as [|[k v] m IH]; intros acc; [reflexivity|]. apply IH.
Qed.

Lemma attributes_object m : m <> [] -> keys_sorted m = true ->
  fold_left (fun acc kv => a <- acc ;; json_set a (fst kv) (JString (snd kv))) m (Some JNull) =
  Some (JObject (attributes_json m)).
Proof.
  destruct m as [|[k v] m]; intros Hne Hs; [congruence|].
  cbn [fold_left obind json_set fst snd]. rewrite fold_json_set.
  rewrite (fold_map_set_sorted (attributes_json m) [(k, JString v)]); [reflexivity|].
  change ([(k, JString v)] ++ attributes_json m) with (attributes_json ((k, v) :: m)).
  rewrite keys_sorted_attributes_json. exact Hs.
Qed.

Lemma message_json_wire msg : attributes msg <> [] -> keys_sorted (attributes msg) = true ->
  message_json msg = Some (wire_entry msg).
Proof.
  intros Hne Hs. unfold message_json. rewrite (attributes_object _ Hne Hs). reflexivity.
Qed.

Lemma payload_wire lg b :
  Forall (fun msg => attributes msg <> [] /\ keys_sorted (attributes msg) = true) b ->
  sendBatch_payload lg b = Some (wire_payload lg b).
Proof.
  intros Hb. unfold sendBatch_payload.
  assert (H : forall acc,
    fold_left (fun acc msg => a <- acc ;; mj <- message_json msg ;; json_push_back a mj)
      b (Some (JArray acc)) = Some (JArray (acc ++ map wire_entry b))).
  { induction Hb as [|msg b [Hne Hs] Hb IH]; intros acc; simpl.
    - rewrite app_nil_r. reflexivity.
    - rewrite (message_json_wire msg Hne Hs). simpl. rewrite IH, <- app_assoc. reflexivity. }
  rewrite H. reflexivity.
Qed.

Lemma attributes_json_wf m :
  forallb (fun kv => match kv with (_, v) => json_wf v end) (attributes_json m) = true.
Proof. induction m as [|[k v] m IH]; [reflexivity|]. exact IH. Qed.

Lemma wire_entry_wf msg : keys_sorted (attributes msg) = true -> json_wf (wire_entry msg) = true.
Proof.
  intros Hs. unfold wire_entry.
  change (json_wf (JObject (attributes_json (attributes msg))) && true = true).
  rewrite andb_true_r. cbn [json_wf].
  rewrite keys_sorted_attributes_json, Hs, attributes_json_wf. reflexivity.
Qed.

Lemma wire_payload_wf lg b :
  Forall (fun msg => keys_sorted (attributes msg) = true) b -> json_wf (wire_payload lg b) = true.
Proof.
  intros Hb. unfold wire_payload.
  change (json_wf (JArray (map wire_entry b)) && true = true).
  rewrite andb_true_r. cbn [json_wf].
  induction Hb as [|msg b Hs Hb IH]; [reflexivity|].
  cbn [map forallb]. rewrite wire_entry_wf, IH by exact Hs. reflexivity.
Qed.

Lemma dump_string_some s : utf8_valid s = true -> exists e, dump (JString s) = Some e.
Proof.
  intros H. destruct (dump_escaped_some s H) as [e He].
  cbn [dump]. rewrite He. eexists; reflexivity.
Qed.

Lemma dump_array_some l :
  Forall (fun v => exists d, dump v = Some d) l -> exists e, dump (JArray l) = Some e.
Proof.
  intros Hl. rewrite dump_array.
  assert (H : exists r, dump_elems l = Some r).
  { induction Hl as [|v l [d Hd] Hl IH]; [eexists; reflexivity|].
    destruct l as [|v2 l]; [exists d; exact Hd|].
    destruct IH as [r Hr]. rewrite dump_elems_cons2, Hd, Hr. eexists; reflexivity. }
  destruct H as [r Hr]. rewrite Hr. eexists; reflexivity.
Qed.

Lemma dump_object_some m :
  Forall (fun kv => utf8_valid (fst kv) = true /\ exists d, dump (snd kv) = Some d) m ->
  exists e, dump (JObject m) = Some e.
Proof.
  intros Hm. rewrite dump_object.
  assert (H : exists r, dump_members m = Some r).
  { induction Hm as [|[k v] m [Hk [d Hd]] Hm IH]; [eexists; reflexivity|].
    destruct (dump_escaped_some k Hk) as [ek Hek]. simpl in Hd.
    destruct m as [|kv2 m].
    - cbn [dump_members]. rewrite Hek, Hd. eexists; reflexivity.
    - destruct IH as [r Hr]. rewrite dump_members_cons2, Hek, Hd, Hr. eexists; reflexivity. }
  destruct H as [r Hr]. rewrite Hr. eexists; reflexivity.
Qed.

Lemma wire_entry_dump msg : event_ok msg -> exists e, dump (wire_entry msg) = Some e.
Proof.
  intros (Hbody & _ & _ & Hattrs). unfold wire_entry.
  apply dump_object_some.
  apply Forall_cons; [split; [reflexivity|]|].
  { apply dump_object_some. unfold attributes_json.
    induction Hattrs as [|[k v] m [Hk Hv] Hm IH]; constructor; auto.
    split; [exact Hk|]. apply dump_string_some, Hv. }
  apply Forall_cons; [split; [reflexivity|apply dump_string_some, Hbody]|].
  apply Forall_cons; [split; [reflexivity|]|].
  { apply dump_string_some. destruct (level msg); reflexivity. }
  apply Forall_cons; [split; [reflexivity|]|].
  { apply dump_string_some, ascii7_utf8_valid, timePointToString_ascii7. }
  apply Forall_nil.
Qed.

Lemma wire_payload_dump lg b : utf8_valid (token_ lg) = true -> Forall event_ok b ->
  exists e, dump (wire_payload lg b) = Some e.
Proof.
  intros Ht Hb. unfold wire_payload.
  apply dump_object_some.
  apply Forall_cons; [split; [reflexivity|]|].
  { apply dump_array_some. induction Hb as [|msg b Hm Hb IH]; constructor; auto.
    apply wire_entry_dump, Hm. }
  apply Forall_cons; [split; [reflexivity|apply dump_string_some, Ht]|].
  apply Forall_cons; [split; [reflexivity|]|].
  { apply dump_string_some. reflexivity. }
  apply Forall_nil.
Qed.

(** A non-empty batch of such events is POSTed as a document the reader
    reads back as [wire_payload]. *)
Lemma sendBatch_wire lg b : b <> [] -> utf8_valid (token_ lg) = true -> Forall event_ok b ->
  exists payloadStr,
    sendBatch_request lg b = Post (endpoint_ lg) "Content-Type: application/json" payloadStr /\
    parse payloadStr = Some (wire_payload lg b).
Proof.
  intros Hne Ht Hb.
  assert (Hp : sendBatch_payload lg b = Some (wire_payload lg b)).
  { apply payload_wire. eapply Forall_impl; [|exact Hb].
    intros msg (_ & Hne' & Hs & _). auto. }
  assert (Hwf : json_wf (wire_payload lg b) = true).
  { apply wire_payload_wf. eapply Forall_impl; [|exact Hb]. intros msg (_ & _ & Hs & _). exact Hs. }
  destruct (wire_payload_dump lg b Ht Hb) as [e He].
  exists e. destruct b as [|msg b']; [congruence|].
  unfold sendBatch_request. rewrite Hp. cbn [obind]. rewrite He.
  split; [reflexivity|]. apply parse_dump; assumption.
Qed.

(** *** The time stamp is ISO-8601 with milliseconds *)

Lemma civil_all : all_in civil_ok 0 (Z.to_nat 146097) = true.
Proof. vm_compute. reflexivity. Qed.

Lemma num2_all : all_in num2_ok 0 (Z.to_nat 100) = true.
Proof. vm_compute. reflexivity. Qed.

Lemma num3_all : all_in num3_ok 0 (Z.to_nat 1000) = true.
Proof. vm_compute. reflexivity. Qed.

Lemma num4_all : all_in num4_ok 0 (Z.to_nat 10000) = true.
Proof. vm_compute. reflexivity. Qed.

Lemma num2_shape x : (0 <= x < 100)%Z ->
  exists a b, strftime_num 2 x = String a (String b EmptyString) /\
              is_digit a = true /\ is_digit b = true /\ val2 a b = x.
Proof.
  intros Hx. pose proof (all_in_spec _ _ _ num2_all x ltac:(simpl; lia)) as H.
  unfold num2_ok in H. destruct (strftime_num 2 x) as [|a [|b [|c t]]]; try discriminate.
  apply andb_prop in H as [H H3]. apply andb_prop in H as [H1 H2]. apply Z.eqb_eq in H3.
  exists a, b. auto.
Qed.

Lemma num3_shape x : (0 <= x < 1000)%Z ->
  exists a b c, pad_left "0" 3 (show_int x) = String a (String b (String c EmptyString)) /\
                is_digit a = true /\ is_digit b = true /\ is_digit c = true.
Proof.
  intros Hx. pose proof (all_in_spec _ _ _ num3_all x ltac:(simpl; lia)) as H.
  unfold num3_ok in H.
  destruct (pad_left "0" 3 (show_int x)) as [|a [|b [|c [|d t]]]]; try discriminate.
  apply andb_prop in H as [H H3]. apply andb_prop in H as [H1 H2].
  exists a, b, c. auto.
Qed.

Lemma num4_shape x : (0 <= x < 10000)%Z ->
  exists a b c d, strftime_num 4 x = String a (String b (String c (String d EmptyString))) /\
                  is_digit a = true /\ is_digit b = true /\ is_digit c = true /\ is_digit d = true.
Proof.
  intros Hx. pose proof (all_in_spec _ _ _ num4_all x ltac:(simpl; lia)) as H.
  unfold num4_ok in H.
  destruct (strftime_num 4 x) as [|a [|b [|c [|d [|e t]]]]]; try discriminate.
  apply andb_prop in H as [H H4]. apply andb_prop in H as [H H3]. apply andb_prop in H as [H1 H2].
  exists a, b, c, d. auto.
Qed.

Lemma in_range_true lo hi x : in_range lo hi x = true -> (lo <= x <= hi)%Z.
Proof. unfold in_range. intros H. apply andb_prop in H as [H1 H2]. apply Z.leb_le in H1, H2. lia. Qed.

(** For the seconds of the years 1970-9999, [gmtime]'s fields are in
    range and the year has four digits. *)
Lemma gmtime_ranges t : (0 <= t < 253402300800)%Z ->
  (0 <= tm_year (gmtime t) + 1900 <= 9999 /\ 1 <= tm_mon (gmtime t) + 1 <= 12 /\
   1 <= tm_mday (gmtime t) <= 31 /\ 0 <= tm_hour (gmtime t) <= 23 /\
   0 <= tm_min (gmtime t) <= 59 /\ 0 <= tm_sec (gmtime t) <= 59)%Z.
Proof.
  intros Ht. unfold gmtime. cbv zeta.
  assert (Hdoe : (0 <= (t / 86400 + 719468) mod 146097 < 146097)%Z)
    by (apply Z.mod_pos_bound; lia).
  pose proof (all_in_spec _ _ _ civil_all _ ltac:(rewrite Z2Nat.id by lia; exact Hdoe)) as Hc.
  unfold civil_ok in Hc.
  destruct (civil_of_doe ((t / 86400 + 719468) mod 146097)) as [[yoe m] d].
  cbn [tm_year tm_mon tm_mday tm_hour tm_min tm_sec].
  apply andb_prop in Hc as [Hc H4]. apply andb_prop in Hc as [Hc H3].
  apply andb_prop in Hc as [H1 H2].
  apply in_range_true in H1, H2, H3.
  destruct (Z.ltb_spec ((t / 86400 + 719468) mod 146097) 146037) as [Hlt|Hge];
    [apply Z.leb_le in H4|clear H4];
  Z.div_mod_to_equations; lia.
Qed.

Lemma timePointToString_iso tp : (0 <= tp < max_tp)%Z ->
  iso8601_millis_z (timePointToString tp) = true.
Proof.
  intros Htp. unfold max_tp in Htp. unfold timePointToString. cbv zeta.
  assert (Hg : (0 <= Z.quot tp ns_per_s < 253402300800)%Z).
  { unfold ns_per_s. rewrite Z.quot_div_nonneg by lia. Z.div_mod_to_equations. lia. }
  assert (Hms : (0 <= Z.quot (Z.rem tp ns_per_s) 1000000 < 1000)%Z).
  { unfold ns_per_s. rewrite Z.rem_mod_nonneg by lia.
    rewrite Z.quot_div_nonneg by (try apply Z.mod_pos_bound; lia).
    Z.div_mod_to_equations. lia. }
  set (g := gmtime (Z.quot tp ns_per_s)) in *.
  destruct (gmtime_ranges _ Hg) as (Hy & Hm & Hd & Hh & Hmi & Hs). fold g in Hy, Hm, Hd, Hh, Hmi, Hs.
  destruct (num4_shape (tm_year g + 1900) ltac:(lia)) as (y1 & y2 & y3 & y4 & Ey & Dy1 & Dy2 & Dy3 & Dy4).
  destruct (num2_shape (tm_mon g + 1) ltac:(lia)) as (m1 & m2 & Em & Dm1 & Dm2 & Vm).
  destruct (num2_shape (tm_mday g) ltac:(lia)) as (d1 & d2 & Ed & Dd1 & Dd2 & Vd).
  destruct (num2_shape (tm_hour g) ltac:(lia)) as (h1 & h2 & Eh & Dh1 & Dh2 & Vh).
  destruct (num2_shape (tm_min g) ltac:(lia)) as (i1 & i2 & Ei & Di1 & Di2 & Vi).
  destruct (num2_shape (tm_sec g) ltac:(lia)) as (s1 & s2 & Es & Ds1 & Ds2 & Vs).
  destruct (num3_shape _ Hms) as (f1 & f2 & f3 & Ef & Df1 & Df2 & Df3).
  rewrite Ey, Em, Ed, Eh, Ei, Es, Ef.
  cbn [String.append iso8601_millis_z forallb].
  rewrite Dy1, Dy2, Dy3, Dy4, Dm1, Dm2, Dd1, Dd2, Dh1, Dh2, Di1, Di2, Ds1, Ds2, Df1, Df2, Df3.
  rewrite Vm, Vd, Vh, Vi, Vs. cbn [andb]. unfold in_range.
  repeat (apply andb_true_intro; split); apply Z.leb_le; lia.
Qed.

(** *** The events [logMessage] builds *)

Lemma map_set_nonempty {V} k (v : V) m : map_set k v m <> [].
Proof.
  destruct m as [|[k' v'] m]; simpl; [discriminate|].
  destruct (String.compare k k'); discriminate.
Qed.

Lemma map_set_Forall {V} (P : string * V -> Prop) k v m :
  Forall P m -> P (k, v) -> Forall P (map_set k v m).
Proof.
  induction m as [|[k' v'] m IH]; simpl; intros Hm Hp; [constructor; auto|].
  inversion Hm; subst. destruct (String.compare k k'); constructor; auto.
Qed.

Lemma message_attributes_ok svc err attrs :
  message_attributes svc err attrs <> [] /\ keys_sorted (message_attributes svc err attrs) = true.
Proof.
  unfold message_attributes.
  assert (H : forall m, m <> [] /\ keys_sorted m = true ->
    fold_left (fun m a => map_set (key a) (value a) m) attrs m <> [] /\
    keys_sorted (fold_left (fun m a => map_set (key a) (value a) m) attrs m) = true).
  { induction attrs as [|a attrs IH]; simpl; intros m Hm; [exact Hm|].
    apply IH. split; [apply map_set_nonempty|apply map_set_sorted; apply Hm]. }
  specialize (H (map_set "service.name" svc []) (conj (map_set_nonempty _ _ _) eq_refl)).
  cbv zeta. destruct err; [|exact H].
  split; [apply map_set_nonempty|apply map_set_sorted; apply H].
Qed.

Lemma message_attributes_utf8 svc err attrs :
  utf8_valid svc = true ->
  forallb (fun a => utf8_valid (key a) && utf8_valid (value a)) attrs = true ->
  match err with Some what => utf8_valid what | None => true end = true ->
  Forall (fun kv => utf8_valid (fst kv) = true /\ utf8_valid (snd kv) = true)
    (message_attributes svc err attrs).
Proof.
  intros Hs Ha He. unfold message_attributes. cbv zeta.
  assert (H : forall m,
    Forall (fun kv => utf8_valid (fst kv) = true /\ utf8_valid (snd kv) = true) m ->
    Forall (fun kv => utf8_valid (fst kv) = true /\ utf8_valid (snd kv) = true)
      (fold_left (fun m a => map_set (key a) (value a) m) attrs m)).
  { induction attrs as [|a attrs IH]; simpl in *; intros m Hm; [exact Hm|].
    apply andb_prop in Ha as [Ha1 Ha2]. apply andb_prop in Ha1 as [Hk Hv].
    apply IH; [exact Ha2|]. apply map_set_Forall; [exact Hm|]. simpl; auto. }
  assert (H0 : Forall (fun kv => utf8_valid (fst kv) = true /\ utf8_valid (snd kv) = true)
                 (map_set "service.name" svc [])).
  { simpl. constructor; [|constructor]. simpl. split; [reflexivity|exact Hs]. }
  specialize (H _ H0).
  destruct err as [what|]; [|exact H].
  apply map_set_Forall; [exact H|]. simpl. split; [reflexivity|exact He].
Qed.

Lemma mk_event_ok now m lvl svc err attrs :
  utf8_valid svc = true -> utf8_valid m = true ->
  forallb (fun a => utf8_valid (key a) && utf8_valid (value a)) attrs = true ->
  match err with Some what => utf8_valid what | None => true end = true ->
  event_ok (mkLogMessage now m lvl (message_attributes svc err attrs)).
Proof.
  intros Hs Hm Ha He. destruct (message_attributes_ok svc err attrs) as [Hne Hsorted].
  unfold event_ok; cbn [body attributes].
  split; [exact Hm|]. split; [exact Hne|]. split; [exact Hsorted|].
  apply message_attributes_utf8; assumption.
Qed.

Lemma call_event_ok lg now c :
  utf8_valid (serviceName_ lg) = true -> call_utf8 c = true -> event_ok (call_event lg now c).
Proof.
  intros Hs Hc. unfold call_utf8 in Hc.
  apply andb_prop in Hc as [Hc He]. apply andb_prop in Hc as [Hm Ha].
  destruct c; cbn [call_event]; cbn [call_message call_attrs call_err] in *;
    apply mk_event_ok; first [assumption | reflexivity].
Qed.

Lemma batch_of_ok lg cs :
  utf8_valid (serviceName_ lg) = true -> Forall (fun nc => call_utf8 (snd nc) = true) cs ->
  Forall event_ok (batch_of lg cs).
Proof.
  intros Hs H. unfold batch_of.
  induction H as [|nc cs Hc _ IH]; simpl; constructor; [|exact IH].
  apply call_event_ok; assumption.
Qed.

Lemma batch_of_nonempty lg cs : cs <> [] -> batch_of lg cs <> [].
Proof. destruct cs; [congruence|discriminate]. Qed.

Lemma call_event_timestamp lg now c : timestamp (call_event lg now c) = now.
Proof. destruct c; reflexivity. Qed.

Lemma level_name lvl :
  In (logLevelToString lvl) ["DEBUG"%string; "INFO"%string; "WARNING"%string; "ERROR"%string].
Proof. destruct lvl; simpl; tauto. Qed.

Lemma batch_of_fields lg cs :
  Forall (fun nc => (0 <= fst nc < max_tp)%Z) cs ->
  Forall (fun msg => iso8601_millis_z (timePointToString (timestamp msg)) = true /\
                     In (logLevelToString (level msg))
                        ["DEBUG"%string; "INFO"%string; "WARNING"%string; "ERROR"%string])
    (batch_of lg cs).
Proof.
  unfold batch_of. induction 1 as [|nc cs Hr _ IH]; simpl; constructor; [|exact IH].
  rewrite call_event_timestamp. split; [apply timePointToString_iso; exact Hr|apply level_name].
Qed.

Lemma wire_entries_fields l :
  Forall2 (fun msg ent => exists fm am, ent = JObject fm /\
      map_find "level" fm = Some (JString (logLevelToString (level msg))) /\
      In (logLevelToString (level msg))
         ["DEBUG"%string; "INFO"%string; "WARNING"%string; "ERROR"%string] /\
      map_find "body" fm = Some (JString (body msg)) /\
      map_find "attributes" fm = Some (JObject am) /\
      forall k, map_find k am = option_map JString (map_find k (attributes msg)))
    l (map wire_entry l).
Proof.
  induction l as [|msg l IH]; simpl; constructor; [|exact IH].
  eexists; exists (attributes_json (attributes msg)).
  split; [reflexivity|]. split; [reflexivity|]. split; [apply level_name|].
  split; [reflexivity|]. split; [reflexivity|].
  intros k. apply map_find_attributes_json.
Qed.

(** A time point one millisecond before the epoch: [to_time_t] truncates
    towards zero and the remainder is negative, so the fraction is
    printed as [0-1]. *)
Lemma timePointToString_before_epoch :
  timePointToString (-1000000) = "1970-01-01T00:00:00.0-1Z"%string /\
  iso8601_millis_z (timePointToString (-1000000)) = false.
Proof. split; vm_compute; reflexivity. Qed.

(** *** [sendBatch] and UTF-8 *)

Lemma dump_escaped_from_valid s : forall st e,
  dump_escaped_from st s = Some e -> utf8_valid_from (need_of st) s = true.
Proof.
  induction s as [|c r IH]; intros st e H.
  - destruct st; simpl in H; [reflexivity|discriminate].
  - destruct st as [|lo hi n]; cbn [dump_escaped_from] in H; cbn [need_of utf8_valid_from].
    + destruct (byte c <? 0x80)%Z eqn:Hb.
      * unfold utf8_seq. rewrite Hb.
        destruct (dump_escaped_from UAccept r) eqn:Hr; [|discriminate]. exact (IH _ _ Hr).
      * destruct (utf8_lead (byte c)) as [st'|] eqn:Hl; [|discriminate].
        assert (Ha : lead_agrees (byte c) = true).
        { apply (all_in_spec _ _ _ lead_agrees_high). apply Z.ltb_ge in Hb.
          pose proof (byte_bound c). lia. }
        unfold lead_agrees in Ha. rewrite Hl in Ha.
        destruct (utf8_seq (byte c)) as [need|]; [|discriminate].
        apply ranges_eqb_eq in Ha. subst need.
        destruct (dump_escaped_from st' r) eqn:Hr; [|discriminate]. exact (IH _ _ Hr).
    + destruct ((lo <=? byte c)%Z && (byte c <=? hi)%Z) eqn:Hin; [|discriminate].
      destruct (dump_escaped_from _ r) eqn:Hr; [|discriminate].
      unfold in_range. rewrite Hin. cbn [andb].
      pose proof (IH _ _ Hr) as H'. destruct n; exact H'.
Qed.

Lemma dump_escaped_valid s e : dump_escaped s = Some e -> utf8_valid s = true.
Proof. apply (dump_escaped_from_valid s UAccept e). Qed.

Lemma dump_elems_inv l : forall r,
  dump_elems l = Some r -> Forall (fun v => exists d, dump v = Some d) l.
Proof.
  induction l as [|v l IH]; intros r H; [constructor|].
  destruct l as [|v2 l].
  - cbn [dump_elems] in H. constructor; [eauto|constructor].
  - rewrite dump_elems_cons2 in H.
    destruct (dump v) eqn:Hv; [|discriminate]. cbn [obind] in H.
    destruct (dump_elems (v2 :: l)) eqn:Hr; [|discriminate].
    constructor; [eauto|exact (IH _ eq_refl)].
Qed.

Lemma dump_members_inv m : forall r,
  dump_members m = Some r ->
  Forall (fun kv => utf8_valid (fst kv) = true /\ exists d, dump (snd kv) = Some d) m.
Proof.
  induction m as [|[k v] m IH]; intros r H; [constructor|].
  destruct m as [|kv2 m].
  - cbn [dump_members] in H.
    destruct (dump_escaped k) eqn:Hk; [|discriminate]. cbn [obind] in H.
    destruct (dump v) eqn:Hv; [|discriminate].
    constructor; [|constructor]. split; [exact (dump_escaped_valid _ _ Hk)|eauto].
  - rewrite dump_members_cons2 in H.
    destruct (dump_escaped k) eqn:Hk; [|discriminate]. cbn [obind] in H.
    destruct (dump v) eqn:Hv; [|discriminate]. cbn [obind] in H.
    destruct (dump_members (kv2 :: m)) eqn:Hr; [|discriminate].
    constructor; [|exact (IH _ eq_refl)]. split; [exact (dump_escaped_valid _ _ Hk)|eauto].
Qed.

Lemma dump_string_valid s d : dump (JString s) = Some d -> utf8_valid s = true.
Proof.
  cbn [dump]. destruct (dump_escaped s) eqn:Hs; [|discriminate].
  intros _. exact (dump_escaped_valid _ _ Hs).
Qed.

Lemma dump_wire_entry_utf8 msg d : dump (wire_entry msg) = Some d ->
  utf8_valid (body msg) &&
  forallb (fun kv => utf8_valid (fst kv) && utf8_valid (snd kv)) (attributes msg) = true.
Proof.
  unfold wire_entry. rewrite dump_object.
  destruct (dump_members _) eqn:Hm; [|discriminate]. intros _.
  apply dump_members_inv in Hm.
  inversion Hm as [|? ? [_ [d1 Hd1]] Hm2]; subst.
  inversion Hm2 as [|? ? [_ [d2 Hd2]] _]; subst. cbn [snd] in Hd1, Hd2.
  rewrite (dump_string_valid _ _ Hd2). cbn [andb].
  rewrite dump_object in Hd1. destruct (dump_members _) eqn:Ha in Hd1; [|discriminate].
  apply dump_members_inv in Ha. unfold attributes_json in Ha. apply Forall_map in Ha.
  apply forallb_forall. intros kv Hin.
  apply (proj1 (Forall_forall _ _) Ha) in Hin. cbn [fst snd] in Hin.
  destruct Hin as [Hk [d3 Hd3]]. rewrite Hk, (dump_string_valid _ _ Hd3). reflexivity.
Qed.

Lemma dump_wire_payload_utf8 lg b e : dump (wire_payload lg b) = Some e -> batch_utf8 lg b = true.
Proof.
  unfold wire_payload. rewrite dump_object.
  destruct (dump_members _) eqn:Hm; [|discriminate]. intros _.
  apply dump_members_inv in Hm.
  inversion Hm as [|? ? [_ [d1 Hd1]] Hm2]; subst.
  inversion Hm2 as [|? ? [_ [d2 Hd2]] _]; subst. cbn [snd] in Hd1, Hd2.
  unfold batch_utf8. rewrite (dump_string_valid _ _ Hd2). cbn [andb].
  rewrite dump_array in Hd1. destruct (dump_elems _) eqn:He in Hd1; [|discriminate].
  apply dump_elems_inv in He.
  apply (proj1 (Forall_map wire_entry (fun v => exists d, dump v = Some d) b)) in He.
  apply forallb_forall. intros msg Hin.
  apply (proj1 (Forall_forall _ _) He) in Hin. destruct Hin as [d Hd].
  exact (dump_wire_entry_utf8 msg d Hd).
Qed.

Lemma batch_of_attributes lg cs :
  Forall (fun msg => attributes msg <> [] /\ keys_sorted (attributes msg) = true) (batch_of lg cs).
Proof.
  unfold batch_of. induction cs as [|[now c] cs IH]; simpl; constructor; [|exact IH].
  destruct c; cbn [call_event fst snd attributes]; apply message_attributes_ok.
Qed.

Lemma batch_utf8_events lg b : batch_utf8 lg b = true ->
  Forall (fun msg => attributes msg <> [] /\ keys_sorted (attributes msg) = true) b ->
  utf8_valid (token_ lg) = true /\ Forall event_ok b.
Proof.
  unfold batch_utf8. intros H Hb. apply andb_prop in H as [Ht H]. split; [exact Ht|].
  rewrite forallb_forall in H. apply Forall_forall. intros msg Hin.
  destruct (proj1 (Forall_forall _ _) Hb msg Hin) as [Hne Hs].
  specialize (H msg Hin). apply andb_prop in H as [Hbody Ha].
  unfold event_ok. split; [exact Hbody|]. split; [exact Hne|]. split; [exact Hs|].
  apply Forall_forall. intros kv Hkv. rewrite forallb_forall in Ha.
  specialize (Ha kv Hkv). apply andb_prop in Ha. exact Ha.
Qed.

(** For a non-empty batch of logged events, [sendBatch] throws as soon as
    one string it dumps (the token, or a body, an attribute key or an
    attribute value of an event as queued) is not valid UTF-8. *)
Lemma sendBatch_invalid_utf8_thrown lg cs :
  cs <> [] -> batch_utf8 lg (batch_of lg cs) = false ->
  sendBatch_request lg (batch_of lg cs) = Thrown.
Proof.
  intros Hne Hu. unfold sendBatch_request.
  destruct (batch_of lg cs) as [|msg b] eqn:Eb;
    [exfalso; exact (batch_of_nonempty lg cs Hne Eb)|].
  rewrite <- Eb. rewrite payload_wire by exact (batch_of_attributes lg cs).
  cbn [obind]. destruct (dump (wire_payload lg (batch_of lg cs))) eqn:Hd; [|reflexivity].
  apply dump_wire_payload_utf8 in Hd. congruence.
Qed.

(** ** The claims *)

(** Claim C1: when [N >= maxBatchSize] events are enqueued in a burst before
    the batcher drains, the first batch sent holds exactly the first
    [maxBatchSize] events in FIFO order (the rest stay queued); and one drain
    moves at most [maxBatchSize] events, from the front of the queue to the
    back of the batch. *)
Theorem C1_burst_first_batch (lg : Logger) (cs : list (Z * Call)) (d : bool) :
  noop_ lg = false -> 0 < maxBatchSize_ lg <= length cs ->
  let evs := map (fun nc => call_event lg (fst nc) (snd nc)) cs in
  let s := run lg Sys_init (map (fun nc => ALog (fst nc) (snd nc)) cs ++ [ABatcher d]) in
  sent s = [firstn (maxBatchSize_ lg) evs] /\
  length (firstn (maxBatchSize_ lg) evs) = maxBatchSize_ lg /\
  logQueue_ s = skipn (maxBatchSize_ lg) evs /\
  (forall b q, exists moved,
     q = moved ++ snd (drain (maxBatchSize_ lg) b q) /\
     fst (drain (maxBatchSize_ lg) b q) = b ++ moved /\
     length moved <= maxBatchSize_ lg).
Proof.
  intros Hn Hm evs s. unfold s. clear s. rewrite run_app.
  assert (Hlen : length evs = length cs) by (unfold evs; apply length_map).
  destruct (run_logs lg Sys_init cs Hn) as (H1 & H2 & H3 & H4 & H5).
  simpl in H1, H2, H3, H4, H5. fold evs in H1.
  remember (run lg Sys_init (map (fun nc => ALog (fst nc) (snd nc)) cs)) as s0 eqn:Hs0.
  clear Hs0. simpl. rewrite H5.
  assert (Hw : wake_pred s0 = true).
  { unfold wake_pred. rewrite H1. destruct evs; [simpl in Hlen; lia|reflexivity]. }
  rewrite Hw. simpl.
  unfold runBatcher_iter. rewrite H4. simpl.
  rewrite drain_spec, H2, H1. simpl. rewrite Nat.sub_0_r.
  assert (Hf : length (firstn (maxBatchSize_ lg) evs) = maxBatchSize_ lg)
    by (rewrite length_firstn; lia).
  assert (Hle : (maxBatchSize_ lg <=? length (firstn (maxBatchSize_ lg) evs)) = true)
    by (apply Nat.leb_le; lia).
  unfold set_batch, set_queue. simpl. rewrite Hle.
  destruct (firstn (maxBatchSize_ lg) evs) as [|f fs] eqn:Hfe; [simpl in Hf; lia|].
  unfold sendBatch; simpl. rewrite andb_false_r.
  rewrite H3. repeat split; [exact Hf|].
  intros b q. exists (firstn (maxBatchSize_ lg - length b) q).
  rewrite drain_spec. simpl. rewrite firstn_skipn. repeat split.
  rewrite length_firstn. lia.
Qed.

(** Claim C2: every event enqueued strictly before the first [shutdown()] is
    part of some flush attempt (and the flush attempts carry them first, in
    FIFO order) by the time the worker loop has returned; the loop returns
    only when the stop flag is set and the queue is empty, and on that step
    a non-empty in-progress batch is sent. *)
Theorem C2_shutdown_flushes (lg : Logger) (pre post : list Action) :
  ~ In AShutdown pre ->
  workerDone (run lg Sys_init (pre ++ AShutdown :: post)) = true ->
  let fin := run lg Sys_init (pre ++ AShutdown :: post) in
  (forall e, In e (enqueued lg pre) -> exists b, In b (sent fin) /\ In e b) /\
  (exists rest, concat (sent fin) = enqueued lg pre ++ rest) /\
  (forall d s, workerDone s = false -> workerDone (step lg (ABatcher d) s) = true ->
     stopWorker_ s = true /\ logQueue_ s = [] /\
     sent (step lg (ABatcher d) s) =
       sent s ++ match batch s with [] => [] | b => [b] end).
Proof.
  intros Hin Hd fin.
  assert (Hpre : exists rest, concat (sent fin) = enqueued lg pre ++ rest).
  { unfold fin in *. rewrite run_app in Hd |- *. simpl in Hd |- *.
    destruct (run_no_shutdown lg Sys_init pre Hin eq_refl eq_refl) as [Hs Hw].
    pose proof (run_content lg Sys_init pre) as Hc.
    set (s1 := run lg Sys_init pre) in *.
    apply (run_flushes lg (enqueued lg pre) post (shutdown s1) []).
    - unfold shutdown. rewrite Hs. exact Hw.
    - unfold shutdown. rewrite Hs, app_nil_r. unfold content in *. simpl. exact Hc.
    - exact Hd. }
  split; [|split; [exact Hpre|]].
  - intros e He. destruct Hpre as [rest Hr].
    assert (Hc : In e (concat (sent fin))) by (rewrite Hr; apply in_or_app; left; exact He).
    apply in_concat in Hc. destruct Hc as [b [Hb Heb]]. eauto.
  - intros d s Hnd Hdd. destruct (step_terminates lg d s Hnd Hdd) as (H1 & H2 & H3).
    rewrite H3. auto.
Qed.

Lemma step_noop_inv lg a s :
  noop_ lg = true -> logQueue_ s = [] -> batch s = [] -> sent s = [] ->
  logQueue_ (step lg a s) = [] /\ batch (step lg a s) = [] /\ sent (step lg a s) = [].
Proof.
  intros Hn Hq Hb Hs.
  destruct a as [now c| |d]; simpl.
  - destruct (call_other lg now c s) as (H1 & H2 & _).
    rewrite call_queue, Hn, Hq, H1, H2. auto.
  - unfold shutdown. destruct (stopWorker_ s); auto.
  - destruct (workerDone s); [auto|]. destruct (wake_pred s || d); [|auto].
    destruct s as [q b st stp dn o]; simpl in *; subst.
    unfold runBatcher_iter; simpl.
    destruct stp; simpl; [auto|].
    destruct (maxBatchSize_ lg <=? 0); destruct d; simpl; auto.
Qed.

Lemma run_noop_inv lg s tr :
  noop_ lg = true -> logQueue_ s = [] -> batch s = [] -> sent s = [] ->
  logQueue_ (run lg s tr) = [] /\ batch (run lg s tr) = [] /\ sent (run lg s tr) = [].
Proof.
  intros Hn. revert s; induction tr as [|a tr IH]; intros s Hq Hb Hs; simpl; [auto|].
  destruct (step_noop_inv lg a s Hn Hq Hb Hs) as (H1 & H2 & H3). auto.
Qed.

(** Claim C4: with [noop] set, whatever interleaving of log calls,
    [shutdown] and batcher passes occurs, the queue stays empty and no
    batch is ever handed to [sendBatch]. *)
Theorem C4_noop_silent (lg : Logger) (tr : list Action) :
  noop_ lg = true ->
  logQueue_ (run lg Sys_init tr) = [] /\ sent (run lg Sys_init tr) = [].
Proof.
  intros Hn. destruct (run_noop_inv lg Sys_init tr Hn eq_refl eq_refl eq_refl) as (H1 & _ & H3).
  auto.
Qed.

(** A logger configured with passthrough and noop both on. *)
(** Claim C3 fails: with passthrough and noop both enabled, an [info] call
    writes no line, because [logMessage] returns at [if (noop_)] before it
    reaches [logPassthrough]. *)
Lemma C3_noop_suppresses_passthrough :
  passthrough_ lg_noop_passthrough = true /\
  cout (call lg_noop_passthrough 0 (CInfo "hi" []) Sys_init) = [] /\
  cout (call lg_noop_passthrough 0 (CInfo "hi" []) Sys_init) <>
    cout Sys_init ++ [passthrough_line Info "hi" []].
Proof. split; [reflexivity|split; [reflexivity|discriminate]]. Qed.

(** Claim C3 (as amended): when passthrough is enabled and noop is not,
    every [debug]/[info]/[warn]/[error] call synchronously appends exactly
    one line to [std::cout], namely
    ["[LEVEL] message {k1=v1 k2=v2 ... }"] (each pair followed by a space);
    when noop is enabled, [logMessage] returns before [logPassthrough] and
    the call writes nothing to [std::cout]. *)
Theorem C3_passthrough_line (lg : Logger) (now : Z) (c : Call) (s : Sys) :
  (passthrough_ lg = true -> noop_ lg = false ->
   cout (call lg now c s) =
     cout s ++ ["[" +++ logLevelToString (call_level c) +++ "] " +++ call_message c +++ " {"
                +++ String.concat EmptyString
                      (map (fun a => key a +++ "=" +++ value a +++ " ") (call_attrs c))
                +++ "}"]) /\
  (noop_ lg = true -> cout (call lg now c s) = cout s).
Proof.
  split.
  - intros Hp Hn. rewrite call_cout, Hp, Hn. simpl.
    unfold passthrough_line. rewrite passthrough_attrs_concat. reflexivity.
  - intros Hn. rewrite call_cout, Hn. destruct (passthrough_ lg); simpl; apply app_nil_r.
Qed.

(** Claim C4's and C3's witnesses use this logger too. *)
(** Claim C5 fails: an error-level event logged without an error object
    ([error("boom")], [err == nullptr]) carries no [error] attribute. *)
Lemma C5_error_without_object :
  logQueue_ (call lg_plain 0 (CError "boom" None []) Sys_init) =
    [mkLogMessage 0 "boom" Error [("service.name"%string, "svc"%string)]] /\
  map_find "error"
    (attributes (mkLogMessage 0 "boom" Error [("service.name"%string, "svc"%string)])) = None.
Proof. split; reflexivity. Qed.

(** Claim C5 (as amended): every event a log call enqueues has the
    attribute map obtained from [service.name -> serviceName], then the
    caller attributes in order (last write wins, also over [service.name]),
    then, when an error object is supplied (only [error] takes one), [error
    -> err->what()]. *)
Theorem C5_attribute_merge (lg : Logger) (now : Z) (c : Call) (s : Sys) :
  noop_ lg = false ->
  exists ev, logQueue_ (call lg now c s) = logQueue_ s ++ [ev] /\
    forall k, map_find k (attributes ev) =
              spec_attribute (serviceName_ lg) (call_err c) (call_attrs c) k.
Proof.
  intros Hn. exists (call_event lg now c). rewrite call_queue, Hn. split; [reflexivity|].
  intros k. rewrite call_event_eq. simpl. apply message_attributes_find.
Qed.

(** Claim C8 fails: a direct construction [Logger(name, endpoint, token)]
    has passthrough off (the declared default is [false]). *)
Lemma C8_direct_passthrough_off :
  passthrough_ (Logger_direct "svc" "example.com" "tk") = false /\
  passthrough_ (Logger_direct "svc" "example.com" "tk") <> true.
Proof. split; [reflexivity|discriminate]. Qed.

(** Claim C8 (as amended): the builder defaults are passthrough true,
    insecure false (an https URL), noop false, maxBatchSize 1000 and
    batchInterval 100 ms; the direct constructor defaults are passthrough
    false, insecure false, noop false, maxBatchSize 100 and batchInterval
    100 ms. *)
Theorem C8_construction_defaults (name endpoint token : string) :
  let b := build (withToken token (withName name LoggerBuilder_new)) in
  let d := Logger_direct name endpoint token in
  passthrough_ b = true /\ endpoint_ b = formatEndpoint "ingress.vigilant.run" false /\
  noop_ b = false /\ maxBatchSize_ b = 1000 /\ batchInterval_ b = 100%Z /\
  passthrough_ d = false /\ endpoint_ d = formatEndpoint endpoint false /\
  noop_ d = false /\ maxBatchSize_ d = 100 /\ batchInterval_ d = 100%Z.
Proof. repeat split. Qed.

(** Claim C9: the target URL is ["{scheme}://{endpoint}/api/message"] with
    scheme [http] exactly when insecure is set; with insecure set and
    endpoint [example.com] it is [http://example.com/api/message]. *)
Theorem C9_target_url (name endpoint token : string) (passthrough insecure noop : bool)
    (maxBatchSize : nat) (batchInterval : Z) :
  endpoint_ (Logger_new name endpoint token passthrough insecure noop maxBatchSize batchInterval) =
    (if insecure then "http" else "https") +++ "://" +++ endpoint +++ "/api/message" /\
  endpoint_ (Logger_new name "example.com" token passthrough true noop maxBatchSize batchInterval) =
    "http://example.com/api/message"%string.
Proof. split; [destruct insecure|]; reflexivity. Qed.

(** Claim C10: the passthrough output of a call is built from the level,
    the message and the caller attributes in the caller's order only; the
    injected [service.name] and [error] entries never reach it, so the line
    and the shipped event can list different attributes. *)
Theorem C10_passthrough_caller_attrs_only (lg : Logger) (now : Z) (c : Call) (s : Sys) :
  cout (call lg now c s) =
    cout s ++ (if passthrough_ lg && negb (noop_ lg)
               then [passthrough_line (call_level c) (call_message c) (call_attrs c)]
               else []) /\
  (let s1 := call lg_plain 0 (CError "x" (Some "boom"%string) [mkAttribute "a" "1"]) Sys_init in
   cout s1 = ["[ERROR] x {a=1 }"%string] /\
   map (fun ev => attributes ev) (logQueue_ s1) =
     [[("a"%string, "1"%string); ("error"%string, "boom"%string);
       ("service.name"%string, "svc"%string)]]).
Proof. split; [apply call_cout|split; reflexivity]. Qed.

(** C6 (counterexample): a Latin-1 body, not valid UTF-8, makes
    [dump] throw; the exception leaves [sendBatch] and no document is
    sent. *)
Lemma C6_invalid_utf8_body :
  sendBatch_request lg_plain (batch_of lg_plain [(0%Z, CInfo latin1_text [])]) = Thrown.
Proof. vm_compute. reflexivity. Qed.

(** C6: for a non-empty batch of events logged with UTF-8 strings, a UTF-8
    token and time points in the years 1970-9999, [sendBatch] posts one
    JSON document which reads back as
    {"logs": [...], "token": token, "type": "logs"}, each entry holding the
    event's attributes as an object of strings, its body, its level name
    and its time stamp; each time stamp is ISO-8601 with milliseconds and
    a trailing Z, and each level name is DEBUG, INFO, WARNING or ERROR.
    If instead the token, or a body, an attribute key or an attribute value
    of an event as queued is not valid UTF-8, [dump] throws and nothing is
    sent. *)
Theorem C6_wire_format (lg : Logger) (cs : list (Z * Call)) :
  cs <> [] ->
  (utf8_valid (token_ lg) = true -> utf8_valid (serviceName_ lg) = true ->
   Forall (fun nc => call_utf8 (snd nc) = true /\ (0 <= fst nc < max_tp)%Z) cs ->
   exists payloadStr,
     sendBatch_request lg (batch_of lg cs) =
       Post (endpoint_ lg) "Content-Type: application/json" payloadStr /\
     parse payloadStr = Some (wire_payload lg (batch_of lg cs)) /\
     Forall (fun msg => iso8601_millis_z (timePointToString (timestamp msg)) = true /\
                        In (logLevelToString (level msg))
                           ["DEBUG"%string; "INFO"%string; "WARNING"%string; "ERROR"%string])
       (batch_of lg cs)) /\
  (batch_utf8 lg (batch_of lg cs) = false -> sendBatch_request lg (batch_of lg cs) = Thrown).
Proof.
  intros Hne. split; [|exact (sendBatch_invalid_utf8_thrown lg cs Hne)].
  intros Ht Hs Hcs.
  destruct (sendBatch_wire lg (batch_of lg cs) (batch_of_nonempty lg cs Hne) Ht) as [e [He Hp]].
  { apply batch_of_ok; [exact Hs|].
    eapply Forall_impl; [|exact Hcs]. intros nc [H _]; exact H. }
  exists e. split; [exact He|]. split; [exact Hp|].
  apply batch_of_fields. eapply Forall_impl; [|exact Hcs]. intros nc [_ H]; exact H.
Qed.

(** C7 (counterexample): an attribute value that is not valid UTF-8 makes
    [dump] throw; no document is produced to parse. *)
Lemma C7_invalid_utf8_attribute :
  sendBatch_request lg_plain
    (batch_of lg_plain [(0%Z, CInfo "ok" [mkAttribute "user" latin1_text])]) = Thrown.
Proof. vm_compute. reflexivity. Qed.

(** C7: for a non-empty batch of events logged with UTF-8 strings and a
    UTF-8 token, parsing the document [sendBatch] posts gives an object
    whose "logs" array has one entry per event, in order, with the event's
    level name (DEBUG, INFO, WARNING or ERROR), its body, and an
    "attributes" object that maps each key exactly as the event's
    attribute map does. If instead the token, or a body, an attribute key
    or an attribute value of an event as queued is not valid UTF-8, [dump]
    throws and no document is produced. *)
Theorem C7_round_trip (lg : Logger) (cs : list (Z * Call)) :
  cs <> [] ->
  (utf8_valid (token_ lg) = true -> utf8_valid (serviceName_ lg) = true ->
   Forall (fun nc => call_utf8 (snd nc) = true) cs ->
   exists payloadStr m entries,
     sendBatch_request lg (batch_of lg cs) =
       Post (endpoint_ lg) "Content-Type: application/json" payloadStr /\
     parse payloadStr = Some (JObject m) /\
     map_find "logs" m = Some (JArray entries) /\
     Forall2 (fun msg ent => exists fm am, ent = JObject fm /\
         map_find "level" fm = Some (JString (logLevelToString (level msg))) /\
         In (logLevelToString (level msg))
            ["DEBUG"%string; "INFO"%string; "WARNING"%string; "ERROR"%string] /\
         map_find "body" fm = Some (JString (body msg)) /\
         map_find "attributes" fm = Some (JObject am) /\
         forall k, map_find k am = option_map JString (map_find k (attributes msg)))
       (batch_of lg cs) entries) /\
  (batch_utf8 lg (batch_of lg cs) = false -> sendBatch_request lg (batch_of lg cs) = Thrown).
Proof.
  intros Hne. split; [|exact (sendBatch_invalid_utf8_thrown lg cs Hne)].
  intros Ht Hs Hcs.
  destruct (sendBatch_wire lg (batch_of lg cs) (batch_of_nonempty lg cs Hne) Ht
              (batch_of_ok lg cs Hs Hcs)) as [e [He Hp]].
  eexists e, _, (map wire_entry (batch_of lg cs)).
  split; [exact He|]. split; [exact Hp|]. split; [reflexivity|].
  apply wire_entries_fields.
Qed.

(** ** Witnesses: the claims' hypotheses hold at concrete inputs *)

Lemma C1_witness :
  noop_ lg_plain = false /\ 0 < maxBatchSize_ lg_plain <= length burst_abc /\
  (let evs := map (fun nc => call_event lg_plain (fst nc) (snd nc)) burst_abc in
   let s := run lg_plain Sys_init
              (map (fun nc => ALog (fst nc) (snd nc)) burst_abc ++ [ABatcher false]) in
   sent s = [firstn (maxBatchSize_ lg_plain) evs] /\
   length (firstn (maxBatchSize_ lg_plain) evs) = maxBatchSize_ lg_plain /\
   logQueue_ s = skipn (maxBatchSize_ lg_plain) evs /\
   (forall b q, exists moved,
      q = moved ++ snd (drain (maxBatchSize_ lg_plain) b q) /\
      fst (drain (maxBatchSize_ lg_plain) b q) = b ++ moved /\
      length moved <= maxBatchSize_ lg_plain)).
Proof.
  split; [reflexivity|]. split; [simpl; lia|].
  apply C1_burst_first_batch; [reflexivity|simpl; lia].
Defined.

Lemma C2_witness :
  ~ In AShutdown shutdown_pre /\
  workerDone (run lg_plain Sys_init (shutdown_pre ++ AShutdown :: shutdown_post)) = true /\
  (let fin := run lg_plain Sys_init (shutdown_pre ++ AShutdown :: shutdown_post) in
   (forall e, In e (enqueued lg_plain shutdown_pre) -> exists b, In b (sent fin) /\ In e b) /\
   (exists rest, concat (sent fin) = enqueued lg_plain shutdown_pre ++ rest) /\
   (forall d s, workerDone s = false -> workerDone (step lg_plain (ABatcher d) s) = true ->
      stopWorker_ s = true /\ logQueue_ s = [] /\
      sent (step lg_plain (ABatcher d) s) =
        sent s ++ match batch s with [] => [] | b => [b] end)).
Proof.
  assert (Hin : ~ In AShutdown shutdown_pre) by (simpl; intros [H|H]; [discriminate|exact H]).
  assert (Hd : workerDone (run lg_plain Sys_init (shutdown_pre ++ AShutdown :: shutdown_post)) = true)
    by (vm_compute; reflexivity).
  split; [exact Hin|]. split; [exact Hd|].
  apply C2_shutdown_flushes; [exact Hin|exact Hd].
Defined.

Lemma C3_witness :
  (passthrough_ lg_plain = true /\ noop_ lg_plain = false /\
   cout (call lg_plain 0 (CWarn "w" [mkAttribute "k" "v"]) Sys_init) =
     cout Sys_init ++ ["[" +++ logLevelToString Warn +++ "] " +++ "w" +++ " {"
                +++ String.concat EmptyString
                      (map (fun a => key a +++ "=" +++ value a +++ " ") [mkAttribute "k" "v"])
                +++ "}"]) /\
  (noop_ lg_noop_passthrough = true /\
   cout (call lg_noop_passthrough 0 (CWarn "w" [mkAttribute "k" "v"]) Sys_init) =
     cout Sys_init).
Proof.
  split.
  - split; [reflexivity|split; [reflexivity|]].
    apply (proj1 (C3_passthrough_line lg_plain 0 (CWarn "w" [mkAttribute "k" "v"]) Sys_init));
      reflexivity.
  - split; [reflexivity|].
    apply (proj2 (C3_passthrough_line lg_noop_passthrough 0
                    (CWarn "w" [mkAttribute "k" "v"]) Sys_init)).
    reflexivity.
Defined.

Lemma C4_witness :
  noop_ lg_noop_passthrough = true /\
  logQueue_ (run lg_noop_passthrough Sys_init
               [ALog 0 (CInfo "a" []); ABatcher true; AShutdown; ABatcher true]) = [] /\
  sent (run lg_noop_passthrough Sys_init
          [ALog 0 (CInfo "a" []); ABatcher true; AShutdown; ABatcher true]) = [].
Proof.
  split; [reflexivity|]. apply C4_noop_silent. reflexivity.
Defined.

Lemma C5_witness :
  noop_ lg_plain = false /\
  exists ev, logQueue_ (call lg_plain 0 (CError "m" (Some "bad"%string)
                                 [mkAttribute "service.name" "x"]) Sys_init) =
             logQueue_ Sys_init ++ [ev] /\
    forall k, map_find k (attributes ev) =
              spec_attribute (serviceName_ lg_plain) (Some "bad"%string)
                [mkAttribute "service.name" "x"] k.
Proof.
  split; [reflexivity|].
  apply (C5_attribute_merge lg_plain 0 (CError "m" (Some "bad"%string)
                                         [mkAttribute "service.name" "x"]) Sys_init).
  reflexivity.
Defined.

Lemma C6_witness :
  (exists payloadStr,
     sendBatch_request lg_plain (batch_of lg_plain sample_calls) =
       Post (endpoint_ lg_plain) "Content-Type: application/json" payloadStr /\
     parse payloadStr = Some (wire_payload lg_plain (batch_of lg_plain sample_calls)) /\
     Forall (fun msg => iso8601_millis_z (timePointToString (timestamp msg)) = true /\
                        In (logLevelToString (level msg))
                           ["DEBUG"%string; "INFO"%string; "WARNING"%string; "ERROR"%string])
       (batch_of lg_plain sample_calls)) /\
  (batch_utf8 lg_plain (batch_of lg_plain [(0%Z, CInfo latin1_text [])]) = false /\
   sendBatch_request lg_plain (batch_of lg_plain [(0%Z, CInfo latin1_text [])]) = Thrown).
Proof.
  split.
  - apply (proj1 (C6_wire_format lg_plain sample_calls ltac:(discriminate)));
      [vm_compute; reflexivity | vm_compute; reflexivity |].
    unfold sample_calls.
    repeat (apply Forall_cons; [split; [vm_compute; reflexivity | unfold max_tp; simpl; lia]|]).
    apply Forall_nil.
  - assert (Hu : batch_utf8 lg_plain (batch_of lg_plain [(0%Z, CInfo latin1_text [])]) = false)
      by (vm_compute; reflexivity).
    split; [exact Hu|].
    exact (proj2 (C6_wire_format lg_plain [(0%Z, CInfo latin1_text [])] ltac:(discriminate)) Hu).
Defined.

Lemma C7_witness :
  (exists payloadStr m entries,
     sendBatch_request lg_plain (batch_of lg_plain sample_calls) =
       Post (endpoint_ lg_plain) "Content-Type: application/json" payloadStr /\
     parse payloadStr = Some (JObject m) /\
     map_find "logs" m = Some (JArray entries) /\
     Forall2 (fun msg ent => exists fm am, ent = JObject fm /\
         map_find "level" fm = Some (JString (logLevelToString (level msg))) /\
         In (logLevelToString (level msg))
            ["DEBUG"%string; "INFO"%string; "WARNING"%string; "ERROR"%string] /\
         map_find "body" fm = Some (JString (body msg)) /\
         map_find "attributes" fm = Some (JObject am) /\
         forall k, map_find k am = option_map JString (map_find k (attributes msg)))
       (batch_of lg_plain sample_calls) entries) /\
  (batch_utf8 lg_plain
     (batch_of lg_plain [(0%Z, CInfo "ok" [mkAttribute "user" latin1_text])]) = false /\
   sendBatch_request lg_plain
     (batch_of lg_plain [(0%Z, CInfo "ok" [mkAttribute "user" latin1_text])]) = Thrown).
Proof.
  split.
  - apply (proj1 (C7_round_trip lg_plain sample_calls ltac:(discriminate)));
      [vm_compute; reflexivity | vm_compute; reflexivity |].
    unfold sample_calls.
    repeat (apply Forall_cons; [vm_compute; reflexivity|]).
    apply Forall_nil.
  - assert (Hu : batch_utf8 lg_plain
                   (batch_of lg_plain [(0%Z, CInfo "ok" [mkAttribute "user" latin1_text])])
                 = false) by (vm_compute; reflexivity).
    split; [exact Hu|].
    exact (proj2 (C7_round_trip lg_plain [(0%Z, CInfo "ok" [mkAttribute "user" latin1_text])]
                    ltac:(discriminate)) Hu).
Defined.


(** ** Further properties of the code *)

(** *** The batcher *)

Lemma batch_sendBatch s : batch (sendBatch s) = [].
Proof. unfold sendBatch. destruct (batch s) eqn:E; [exact E|reflexivity]. Qed.

Lemma sendBatch_bounds m s : batch_bounds m s -> batch_bounds m (sendBatch s).
Proof.
  unfold batch_bounds, sendBatch. intros [Hb Hs].
  destruct (batch s) as [|e b] eqn:E; simpl; [rewrite ?E; auto|].
  split; [lia|]. apply Forall_app. split; [exact Hs|].
  constructor; [|constructor]. split; [discriminate|]. rewrite ?E in Hb. exact Hb.
Qed.

Lemma runBatcher_iter_bounds m d s : batch_bounds m s -> batch_bounds m (runBatcher_iter m d s).
Proof.
  intros H. unfold runBatcher_iter.
  destruct (stopWorker_ s && _).
  - destruct (batch s); unfold set_done; cbn [batch sent]; [apply H|].
    apply (sendBatch_bounds m s H).
  - destruct (drain m (batch s) (logQueue_ s)) as [b q] eqn:Hd.
    assert (H1 : batch_bounds m (set_batch b (set_queue q s))).
    { rewrite drain_spec in Hd. injection Hd as <- <-. destruct H as [Hb Hs].
      split; cbn [set_batch set_queue batch sent].
      - rewrite length_app, length_firstn. lia.
      - exact Hs. }
    cbv zeta.
    destruct (m <=? _); destruct (d && _); repeat apply sendBatch_bounds; exact H1.
Qed.

Lemma step_bounds lg a s :
  batch_bounds (maxBatchSize_ lg) s -> batch_bounds (maxBatchSize_ lg) (step lg a s).
Proof.
  intros H. destruct a as [now c| |d]; simpl.
  - destruct (call_other lg now c s) as (Hb & Hs & _). unfold batch_bounds. rewrite Hb, Hs. exact H.
  - unfold shutdown. destruct (stopWorker_ s); exact H.
  - destruct (workerDone s); [exact H|].
    destruct (wake_pred s || d); [apply runBatcher_iter_bounds; exact H|exact H].
Qed.

Lemma run_bounds lg s tr :
  batch_bounds (maxBatchSize_ lg) s -> batch_bounds (maxBatchSize_ lg) (run lg s tr).
Proof.
  revert s; induction tr as [|a tr IH]; intros s H; simpl; [exact H|].
  apply IH, step_bounds, H.
Qed.

Lemma run_init_bounds lg tr : batch_bounds (maxBatchSize_ lg) (run lg Sys_init tr).
Proof. apply run_bounds. split; [simpl; lia|constructor]. Qed.

Lemma runBatcher_iter_zero d s :
  logQueue_ s <> [] -> logQueue_ (runBatcher_iter 0 d s) = logQueue_ s.
Proof.
  intros Hq. unfold runBatcher_iter.
  destruct (logQueue_ s) as [|e q] eqn:E; [congruence|].
  replace (stopWorker_ s && false) with false by (destruct (stopWorker_ s); reflexivity).
  cbn [drain]. replace (length (batch s) <? 0) with false by (symmetry; apply Nat.ltb_ge; lia).
  cbv zeta. cbn [set_batch set_queue batch].
  destruct (0 <=? _); destruct (d && _);
    rewrite ?(proj1 (sendBatch_other _)); reflexivity.
Qed.

Lemma step_exit_inv lg a s :
  (workerDone s = true -> stopWorker_ s = true /\ batch s = []) ->
  workerDone (step lg a s) = true ->
  stopWorker_ (step lg a s) = true /\ batch (step lg a s) = [].
Proof.
  intros H Hd'. destruct (workerDone s) eqn:Hd.
  - destruct (H eq_refl) as [Hs Hb]. destruct a as [now c| |d]; simpl.
    + destruct (call_other lg now c s) as (Hb' & _ & Hs' & _). rewrite Hb', Hs'. auto.
    + unfold shutdown. rewrite Hs. auto.
    + rewrite Hd. auto.
  - destruct a as [now c| |d].
    + simpl in Hd'. destruct (call_other lg now c s) as (_ & _ & _ & Hw). congruence.
    + simpl in Hd'. unfold shutdown in Hd'. destruct (stopWorker_ s); simpl in Hd'; congruence.
    + destruct (step_terminates lg d s Hd Hd') as (_ & _ & Hst). rewrite Hst. simpl. auto.
Qed.


(** *** Reading the time stamp back *)

Lemma civil_days_all : all_in civil_days_ok 0 (Z.to_nat 146097) = true.
Proof. vm_compute. reflexivity. Qed.

Lemma num3v_all : all_in num3v_ok 0 (Z.to_nat 1000) = true.
Proof. vm_compute. reflexivity. Qed.

Lemma num4v_all : all_in num4v_ok 0 (Z.to_nat 10000) = true.
Proof. vm_compute. reflexivity. Qed.

Lemma num3v_shape x : (0 <= x < 1000)%Z ->
  exists a b c, pad_left "0" 3 (show_int x) = String a (String b (String c EmptyString)) /\
                is_digit a = true /\ is_digit b = true /\ is_digit c = true /\ val3 a b c = x.
Proof.
  intros Hx. pose proof (all_in_spec _ _ _ num3v_all x ltac:(simpl; lia)) as H.
  unfold num3v_ok in H.
  destruct (pad_left "0" 3 (show_int x)) as [|a [|b [|c [|d t]]]]; try discriminate.
  apply andb_prop in H as [H H4]. apply andb_prop in H as [H H3].
  apply andb_prop in H as [H1 H2]. apply Z.eqb_eq in H4.
  exists a, b, c. auto.
Qed.

Lemma num4v_shape x : (0 <= x < 10000)%Z ->
  exists a b c d, strftime_num 4 x = String a (String b (String c (String d EmptyString))) /\
                  is_digit a = true /\ is_digit b = true /\ is_digit c = true /\
                  is_digit d = true /\ val4 a b c d = x.
Proof.
  intros Hx. pose proof (all_in_spec _ _ _ num4v_all x ltac:(simpl; lia)) as H.
  unfold num4v_ok in H.
  destruct (strftime_num 4 x) as [|a [|b [|c [|d [|e t]]]]]; try discriminate.
  apply andb_prop in H as [H H5]. apply andb_prop in H as [H H4].
  apply andb_prop in H as [H H3]. apply andb_prop in H as [H1 H2]. apply Z.eqb_eq in H5.
  exists a, b, c, d. auto 7.
Qed.

Lemma is_leap_period y e : is_leap (y + 400 * e) = is_leap y.
Proof.
  unfold is_leap.
  replace (y + 400 * e)%Z with (y + (100 * e) * 4)%Z at 1 by ring.
  rewrite Z.mod_add by lia.
  replace (y + 400 * e)%Z with (y + (4 * e) * 100)%Z at 1 by ring.
  rewrite Z.mod_add by lia.
  replace (y + 400 * e)%Z with (y + e * 400)%Z by ring.
  rewrite Z.mod_add by lia. reflexivity.
Qed.

Lemma leaps_before_period y e : leaps_before (y + 400 * e) = (leaps_before y + 97 * e)%Z.
Proof.
  unfold leaps_before.
  replace (y + 400 * e - 1)%Z with ((y - 1) + (100 * e) * 4)%Z at 1 by ring.
  rewrite Z.div_add by lia.
  replace (y + 400 * e - 1)%Z with ((y - 1) + (4 * e) * 100)%Z at 1 by ring.
  rewrite Z.div_add by lia.
  replace (y + 400 * e - 1)%Z with ((y - 1) + e * 400)%Z by ring.
  rewrite Z.div_add by lia. ring.
Qed.

Lemma days_from_civil_period y m d e :
  days_from_civil (y + 400 * e) m d = (days_from_civil y m d + 146097 * e)%Z.
Proof.
  unfold days_from_civil, days_before_month.
  rewrite leaps_before_period, is_leap_period. ring.
Qed.

Lemma gmtime_days t :
  days_from_civil (tm_year (gmtime t) + 1900) (tm_mon (gmtime t) + 1) (tm_mday (gmtime t)) =
    (t / 86400)%Z /\
  (tm_hour (gmtime t) * 3600 + tm_min (gmtime t) * 60 + tm_sec (gmtime t) = t mod 86400)%Z.
Proof.
  unfold gmtime. cbv zeta.
  assert (Hdoe : (0 <= (t / 86400 + 719468) mod 146097 < 146097)%Z)
    by (apply Z.mod_pos_bound; lia).
  pose proof (all_in_spec _ _ _ civil_days_all _ ltac:(rewrite Z2Nat.id by lia; exact Hdoe)) as Hc.
  unfold civil_days_ok in Hc.
  destruct (civil_of_doe ((t / 86400 + 719468) mod 146097)) as [[yoe m] d].
  cbn [tm_year tm_mon tm_mday tm_hour tm_min tm_sec]. apply Z.eqb_eq in Hc.
  split.
  - replace (yoe + (t / 86400 + 719468) / 146097 * 400 - 1900 + 1900)%Z
      with (yoe + 400 * ((t / 86400 + 719468) / 146097))%Z by ring.
    replace (m - 1 + 1)%Z with m by ring.
    rewrite days_from_civil_period, Hc.
    pose proof (Z.div_mod (t / 86400 + 719468) 146097 ltac:(lia)). lia.
  - Z.div_mod_to_equations. lia.
Qed.

Lemma timePointToString_millis tp : (0 <= tp < max_tp)%Z ->
  iso_to_millis (timePointToString tp) = Some (tp / 1000000)%Z.
Proof.
  intros Htp. unfold max_tp in Htp. unfold timePointToString. cbv zeta.
  assert (Hq : Z.quot tp ns_per_s = (tp / 1000000000)%Z)
    by (unfold ns_per_s; apply Z.quot_div_nonneg; lia).
  assert (Hr : Z.quot (Z.rem tp ns_per_s) 1000000 = (tp mod 1000000000 / 1000000)%Z).
  { unfold ns_per_s. rewrite Z.rem_mod_nonneg by lia.
    apply Z.quot_div_nonneg; [apply Z.mod_pos_bound|]; lia. }
  rewrite Hq, Hr.
  assert (Hg : (0 <= tp / 1000000000 < 253402300800)%Z) by (Z.div_mod_to_equations; lia).
  assert (Hms : (0 <= tp mod 1000000000 / 1000000 < 1000)%Z) by (Z.div_mod_to_equations; lia).
  destruct (gmtime_days (tp / 1000000000)) as [Hdays Hsecs].
  set (g := gmtime (tp / 1000000000)) in *.
  destruct (gmtime_ranges _ Hg) as (Hy & Hm & Hd & Hh & Hmi & Hs).
  fold g in Hy, Hm, Hd, Hh, Hmi, Hs.
  destruct (num4v_shape (tm_year g + 1900) ltac:(lia))
    as (y1 & y2 & y3 & y4 & Ey & Dy1 & Dy2 & Dy3 & Dy4 & Vy).
  destruct (num2_shape (tm_mon g + 1) ltac:(lia)) as (m1 & m2 & Em & Dm1 & Dm2 & Vm).
  destruct (num2_shape (tm_mday g) ltac:(lia)) as (d1 & d2 & Ed & Dd1 & Dd2 & Vd).
  destruct (num2_shape (tm_hour g) ltac:(lia)) as (h1 & h2 & Eh & Dh1 & Dh2 & Vh).
  destruct (num2_shape (tm_min g) ltac:(lia)) as (i1 & i2 & Ei & Di1 & Di2 & Vi).
  destruct (num2_shape (tm_sec g) ltac:(lia)) as (s1 & s2 & Es & Ds1 & Ds2 & Vs).
  destruct (num3v_shape _ Hms) as (f1 & f2 & f3 & Ef & Df1 & Df2 & Df3 & Vf).
  rewrite Ey, Em, Ed, Eh, Ei, Es, Ef.
  cbn [String.append iso_to_millis forallb].
  rewrite Dy1, Dy2, Dy3, Dy4, Dm1, Dm2, Dd1, Dd2, Dh1, Dh2, Di1, Di2, Ds1, Ds2, Df1, Df2, Df3.
  cbn [andb]. rewrite Vy, Vm, Vd, Vh, Vi, Vs, Vf, Hdays. f_equal.
  Z.div_mod_to_equations. lia.
Qed.

Lemma timePointToString_by_millis tp : (0 <= tp)%Z ->
  Z.quot tp ns_per_s = (tp / 1000000 / 1000)%Z /\
  Z.quot (Z.rem tp ns_per_s) 1000000 = ((tp / 1000000) mod 1000)%Z.
Proof.
  intros H. unfold ns_per_s.
  rewrite Z.quot_div_nonneg, Z.rem_mod_nonneg, Z.quot_div_nonneg by
    (try apply Z.mod_pos_bound; lia).
  split; Z.div_mod_to_equations; lia.
Qed.

(** *** The builder *)

Lemma builder_calls_app ops1 ops2 b :
  builder_calls (ops1 ++ ops2) b = builder_calls ops2 (builder_calls ops1 b).
Proof. unfold builder_calls. apply fold_left_app. Qed.

Lemma builder_calls_endpoint ops : forall b,
  forallb (fun c => negb (is_endpoint_call c)) ops = true ->
  b_endpoint_ (builder_calls ops b) = b_endpoint_ b.
Proof.
  induction ops as [|c ops IH]; intros b H; [reflexivity|].
  cbn [forallb] in H. apply andb_prop in H as [Hc H].
  cbn [builder_calls fold_left]. fold (builder_calls ops (builder_call c b)).
  rewrite IH by exact H. destruct c; try reflexivity; discriminate.
Qed.

Lemma builder_calls_insecure ops : forall b,
  forallb (fun c => negb (is_insecure_call c)) ops = true ->
  b_insecure_ (builder_calls ops b) = b_insecure_ b.
Proof.
  induction ops as [|c ops IH]; intros b H; [reflexivity|].
  cbn [forallb] in H. apply andb_prop in H as [Hc H].
  cbn [builder_calls fold_left]. fold (builder_calls ops (builder_call c b)).
  rewrite IH by exact H. destruct c; try reflexivity; discriminate.
Qed.

(** ** Extra properties *)

(** The batcher neither loses, duplicates nor reorders events: the sent
    batches, then the worker's batch, then the queue, hold exactly the
    events logged so far, in logging order. *)
Theorem batcher_conserves_events (lg : Logger) (tr : list Action) :
  concat (sent (run lg Sys_init tr)) ++ batch (run lg Sys_init tr) ++
    logQueue_ (run lg Sys_init tr) = enqueued lg tr.
Proof. exact (run_content lg Sys_init tr). Qed.

(** Every batch handed to [sendBatch] past its emptiness check is
    non-empty and holds at most [maxBatchSize] events, and the worker's
    batch never holds more than [maxBatchSize] events. *)
Theorem batcher_batch_bounds (lg : Logger) (tr : list Action) :
  length (batch (run lg Sys_init tr)) <= maxBatchSize_ lg /\
  Forall (fun b => b <> [] /\ length b <= maxBatchSize_ lg) (sent (run lg Sys_init tr)).
Proof. exact (run_init_bounds lg tr). Qed.

(** With [maxBatchSize] 0 no event ever leaves the queue: nothing is sent
    and every logged event stays queued. *)
Theorem zero_batch_size_never_sends (lg : Logger) (tr : list Action) :
  maxBatchSize_ lg = 0 ->
  sent (run lg Sys_init tr) = [] /\ batch (run lg Sys_init tr) = [] /\
  logQueue_ (run lg Sys_init tr) = enqueued lg tr.
Proof.
  intros H0. destruct (run_init_bounds lg tr) as [Hb Hs]. rewrite H0 in Hb, Hs.
  assert (Hsent : sent (run lg Sys_init tr) = []).
  { destruct (sent (run lg Sys_init tr)) as [|b l]; [reflexivity|].
    inversion Hs as [|? ? [Hne Hl] _]; subst.
    destruct b; [congruence|simpl in Hl; lia]. }
  assert (Hbatch : batch (run lg Sys_init tr) = []) by (apply length_zero_iff_nil; lia).
  pose proof (run_content lg Sys_init tr) as Hc. unfold content in Hc.
  rewrite Hsent, Hbatch in Hc. split; [exact Hsent|]. split; [exact Hbatch|]. exact Hc.
Qed.

(** With [maxBatchSize] 0, once an event is queued while the worker runs,
    the worker never returns (so [shutdown] blocks in [join]) and the
    queue never empties. *)
Theorem zero_batch_size_worker_never_exits (lg : Logger) (s : Sys) (tr : list Action) :
  maxBatchSize_ lg = 0 -> workerDone s = false -> logQueue_ s <> [] ->
  workerDone (run lg s tr) = false /\ logQueue_ (run lg s tr) <> [].
Proof.
  intros H0. revert s; induction tr as [|a tr IH]; intros s Hd Hq; cbn [run]; [auto|].
  apply IH.
  - destruct a as [now c| |d]; simpl.
    + destruct (call_other lg now c s) as (_ & _ & _ & Hw). congruence.
    + unfold shutdown. destruct (stopWorker_ s); exact Hd.
    + rewrite Hd. destruct (wake_pred s || d); [|exact Hd].
      rewrite runBatcher_iter_done, Hd. destruct (logQueue_ s); [congruence|].
      rewrite andb_false_r. reflexivity.
  - destruct a as [now c| |d]; simpl.
    + rewrite call_queue. destruct (logQueue_ s); [congruence|discriminate].
    + unfold shutdown. destruct (stopWorker_ s); exact Hq.
    + rewrite Hd. destruct (wake_pred s || d); [|exact Hq].
      rewrite H0, runBatcher_iter_zero by exact Hq. exact Hq.
Qed.

(** Once the worker has returned, no batch is sent any more and every
    event logged afterwards stays in the queue. *)
Theorem exited_worker_drops_later_events (lg : Logger) (s : Sys) (tr : list Action) :
  workerDone s = true ->
  sent (run lg s tr) = sent s /\ logQueue_ (run lg s tr) = logQueue_ s ++ enqueued lg tr.
Proof.
  revert s; induction tr as [|a tr IH]; intros s Hd; cbn [run].
  - rewrite app_nil_r. auto.
  - assert (Hs : sent (step lg a s) = sent s /\ workerDone (step lg a s) = true /\
                 logQueue_ (step lg a s) = logQueue_ s ++ enqueued lg [a]).
    { destruct a as [now c| |d]; simpl.
      - destruct (call_other lg now c s) as (_ & Hs & _ & Hw).
        rewrite Hs, Hw, call_queue, app_nil_r. auto.
      - rewrite app_nil_r. unfold shutdown. destruct (stopWorker_ s); simpl; auto.
      - rewrite Hd, app_nil_r. auto. }
    destruct Hs as (H1 & H2 & H3). destruct (IH _ H2) as [H4 H5].
    rewrite H4, H5, H1, H3, <- app_assoc. split; [reflexivity|].
    change (enqueued lg (a :: tr)) with (enqueued lg ([a] ++ tr)).
    rewrite enqueued_app. reflexivity.
Qed.

(** The worker returns only after [shutdown] set the stop flag, and it
    leaves no event in its batch. *)
Theorem worker_exit_state (lg : Logger) (tr : list Action) :
  workerDone (run lg Sys_init tr) = true ->
  stopWorker_ (run lg Sys_init tr) = true /\ batch (run lg Sys_init tr) = [].
Proof.
  assert (H : forall s, (workerDone s = true -> stopWorker_ s = true /\ batch s = []) ->
              workerDone (run lg s tr) = true ->
              stopWorker_ (run lg s tr) = true /\ batch (run lg s tr) = []).
  { induction tr as [|a tr IH]; intros s Hs; cbn [run]; [exact Hs|].
    apply IH. apply step_exit_inv, Hs. }
  apply H. discriminate.
Qed.

(** An iteration of [runBatcher] that finds [nextSendTime] reached leaves
    the worker's batch empty. *)
Theorem deadline_iteration_empties_batch (m : nat) (s : Sys) :
  batch (runBatcher_iter m true s) = [].
Proof.
  unfold runBatcher_iter.
  destruct (stopWorker_ s && _).
  - destruct (batch s) eqn:E; unfold set_done; cbn [batch]; [exact E|].
    apply batch_sendBatch.
  - destruct (drain m (batch s) (logQueue_ s)) as [b q]. cbv zeta. cbn [andb].
    set (X := if m <=? _ then _ else _).
    destruct (batch X) eqn:E; cbn [negb]; [exact E|apply batch_sendBatch].
Qed.

(** Before the deadline and while fewer than [maxBatchSize] events are
    pending, an iteration of [runBatcher] sends nothing: it moves the whole
    queue into the worker's batch. *)
Theorem idle_batcher_waits (m : nat) (s : Sys) :
  stopWorker_ s = false -> length (batch s) + length (logQueue_ s) < m ->
  runBatcher_iter m false s = set_batch (batch s ++ logQueue_ s) (set_queue [] s).
Proof.
  intros Hs Hl. unfold runBatcher_iter. rewrite Hs. cbn [andb].
  rewrite drain_spec, firstn_all2, skipn_all2 by lia.
  cbv zeta. cbn [andb set_batch set_queue batch].
  replace (m <=? length (batch s ++ logQueue_ s)) with false
    by (symmetry; apply Nat.leb_gt; rewrite length_app; lia).
  reflexivity.
Qed.

(** For a non-empty batch of logged events, [sendBatch] posts a document
    when the token and every body, attribute key and attribute value are
    valid UTF-8, and throws otherwise. *)
Theorem sendBatch_throws_iff_invalid_utf8 (lg : Logger) (cs : list (Z * Call)) :
  cs <> [] ->
  (batch_utf8 lg (batch_of lg cs) = true ->
   exists payloadStr, sendBatch_request lg (batch_of lg cs) =
     Post (endpoint_ lg) "Content-Type: application/json" payloadStr) /\
  (batch_utf8 lg (batch_of lg cs) = false -> sendBatch_request lg (batch_of lg cs) = Thrown).
Proof.
  intros Hne. split.
  - intros Hu.
    destruct (batch_utf8_events lg _ Hu (batch_of_attributes lg cs)) as [Ht Hev].
    destruct (sendBatch_wire lg (batch_of lg cs) (batch_of_nonempty lg cs Hne) Ht Hev)
      as [e [He _]].
    exists e. exact He.
  - exact (sendBatch_invalid_utf8_thrown lg cs Hne).
Qed.

(** For a time point in the years 1970-9999, the text [timePointToString]
    writes denotes the time point truncated to the millisecond. *)
Theorem timePointToString_round_trip (tp : Z) :
  (0 <= tp < max_tp)%Z -> iso_to_millis (timePointToString tp) = Some (tp / 1000000)%Z.
Proof. exact (timePointToString_millis tp). Qed.

(** For time points in the years 1970-9999, two time stamps are the same
    text exactly when the time points fall in the same millisecond. *)
Theorem timePointToString_same_millisecond (tp1 tp2 : Z) :
  (0 <= tp1 < max_tp)%Z -> (0 <= tp2 < max_tp)%Z ->
  (timePointToString tp1 = timePointToString tp2 <-> (tp1 / 1000000 = tp2 / 1000000)%Z).
Proof.
  intros H1 H2. split.
  - intros He. pose proof (timePointToString_millis tp1 H1) as R1.
    pose proof (timePointToString_millis tp2 H2) as R2.
    rewrite He in R1. rewrite R1 in R2. injection R2 as R. exact R.
  - intros He. unfold timePointToString.
    destruct (timePointToString_by_millis tp1 ltac:(lia)) as [A1 B1].
    destruct (timePointToString_by_millis tp2 ltac:(lia)) as [A2 B2].
    rewrite A1, B1, A2, B2, He. reflexivity.
Qed.

(** The URL a built logger posts to depends only on the last
    [withEndpoint] and the last [withInsecure] call of the chain, in
    whichever order they were made. *)
Theorem build_endpoint_last_calls (b : LoggerBuilder) (ops pre post pre' post' : list BuilderCall)
    (e : string) (i : bool) :
  ops = pre ++ BWithEndpoint e :: post ->
  forallb (fun c => negb (is_endpoint_call c)) post = true ->
  ops = pre' ++ BWithInsecure i :: post' ->
  forallb (fun c => negb (is_insecure_call c)) post' = true ->
  endpoint_ (build (builder_calls ops b)) = formatEndpoint e i.
Proof.
  intros H1 H2 H3 H4. cbn [build Logger_new endpoint_].
  assert (He : b_endpoint_ (builder_calls ops b) = e).
  { rewrite H1, builder_calls_app. cbn [builder_calls fold_left].
    fold (builder_calls post (builder_call (BWithEndpoint e) (builder_calls pre b))).
    rewrite builder_calls_endpoint by exact H2. reflexivity. }
  assert (Hi : b_insecure_ (builder_calls ops b) = i).
  { rewrite H3, builder_calls_app. cbn [builder_calls fold_left].
    fold (builder_calls post' (builder_call (BWithInsecure i) (builder_calls pre' b))).
    rewrite builder_calls_insecure by exact H4. reflexivity. }
  rewrite He, Hi. reflexivity.
Qed.


(** ** Witnesses of the extra properties *)

Lemma zero_batch_size_never_sends_witness :
  sent (run lg_zero Sys_init [ALog 0 (CInfo "a" []); AShutdown; ABatcher true]) = [] /\
  batch (run lg_zero Sys_init [ALog 0 (CInfo "a" []); AShutdown; ABatcher true]) = [] /\
  logQueue_ (run lg_zero Sys_init [ALog 0 (CInfo "a" []); AShutdown; ABatcher true]) =
    enqueued lg_zero [ALog 0 (CInfo "a" []); AShutdown; ABatcher true].
Proof. apply zero_batch_size_never_sends. reflexivity. Defined.

Lemma zero_batch_size_worker_never_exits_witness :
  workerDone (run lg_zero (run lg_zero Sys_init [ALog 0 (CInfo "a" [])])
                [AShutdown; ABatcher true; ABatcher false]) = false /\
  logQueue_ (run lg_zero (run lg_zero Sys_init [ALog 0 (CInfo "a" [])])
               [AShutdown; ABatcher true; ABatcher false]) <> [].
Proof.
  apply zero_batch_size_worker_never_exits;
    [reflexivity | vm_compute; reflexivity | intros H; vm_compute in H; discriminate H].
Defined.

Lemma exited_worker_drops_later_events_witness :
  sent (run lg_plain (run lg_plain Sys_init [AShutdown; ABatcher false])
          [ALog 0 (CInfo "late" []); ABatcher true]) =
    sent (run lg_plain Sys_init [AShutdown; ABatcher false]) /\
  logQueue_ (run lg_plain (run lg_plain Sys_init [AShutdown; ABatcher false])
               [ALog 0 (CInfo "late" []); ABatcher true]) =
    logQueue_ (run lg_plain Sys_init [AShutdown; ABatcher false]) ++
    enqueued lg_plain [ALog 0 (CInfo "late" []); ABatcher true].
Proof. apply exited_worker_drops_later_events. vm_compute. reflexivity. Defined.

Lemma worker_exit_state_witness :
  stopWorker_ (run lg_plain Sys_init
                 [ALog 0 (CInfo "a" []); AShutdown; ABatcher false; ABatcher false]) = true /\
  batch (run lg_plain Sys_init
           [ALog 0 (CInfo "a" []); AShutdown; ABatcher false; ABatcher false]) = [].
Proof. apply worker_exit_state. vm_compute. reflexivity. Defined.

Lemma idle_batcher_waits_witness :
  runBatcher_iter 2 false (run lg_plain Sys_init [ALog 0 (CInfo "a" [])]) =
    set_batch (batch (run lg_plain Sys_init [ALog 0 (CInfo "a" [])]) ++
               logQueue_ (run lg_plain Sys_init [ALog 0 (CInfo "a" [])]))
      (set_queue [] (run lg_plain Sys_init [ALog 0 (CInfo "a" [])])).
Proof. apply idle_batcher_waits; vm_compute; [reflexivity | lia]. Defined.

Lemma sendBatch_throws_iff_invalid_utf8_witness :
  (batch_utf8 lg_plain (batch_of lg_plain sample_calls) = true ->
   exists payloadStr, sendBatch_request lg_plain (batch_of lg_plain sample_calls) =
     Post (endpoint_ lg_plain) "Content-Type: application/json" payloadStr) /\
  (batch_utf8 lg_plain (batch_of lg_plain sample_calls) = false ->
   sendBatch_request lg_plain (batch_of lg_plain sample_calls) = Thrown).
Proof. apply sendBatch_throws_iff_invalid_utf8. discriminate. Defined.


Lemma timePointToString_round_trip_witness :
  iso_to_millis (timePointToString 1714953600123456789%Z) = Some (1714953600123456789 / 1000000)%Z.
Proof. apply timePointToString_round_trip. unfold max_tp. lia. Defined.

Lemma timePointToString_same_millisecond_witness :
  timePointToString 1714953600123456789%Z = timePointToString 1714953600123000000%Z <->
  (1714953600123456789 / 1000000 = 1714953600123000000 / 1000000)%Z.
Proof. apply timePointToString_same_millisecond; unfold max_tp; lia. Defined.

Lemma build_endpoint_last_calls_witness :
  endpoint_ (build (builder_calls [BWithInsecure true; BWithEndpoint "localhost:8080";
                                   BWithName "svc"] LoggerBuilder_new)) =
    formatEndpoint "localhost:8080" true.
Proof.
  apply (build_endpoint_last_calls LoggerBuilder_new _ [BWithInsecure true] [BWithName "svc"]
           [] [BWithEndpoint "localhost:8080"; BWithName "svc"]); reflexivity.
Defined.
